(** * trick-or-treat: the frame scheduler (engine) and the popover manager

    A shallow embedding of [js/popover.js] and of the game engine script.
    JavaScript numbers are IEEE binary64 values, modelled by Rocq's primitive
    floats; objects that are shared by reference (canvas elements) live in a
    heap and are named by handles; functions that mutate state or may throw
    run in a state-and-exception monad over the whole page.

    The collaborators (entities, board manager, animation queue, asset
    loader, and the drawing primitives of a canvas context) are not part of
    these sources: a call to one of them is recorded, in order, and returns. *)

From Stdlib Require Import PrimFloat Uint63 ZArith NArith List String Bool Lia.
Import ListNotations.
Set Warnings "-inexact-float".
Local Open Scope string_scope.
Local Open Scope list_scope.

(** ** JavaScript values *)

(** A reference-valued slot: [undefined], [null] or an object handle. *)
Inductive JsRef : Type :=
| Undefined
| Null
| Ref (h : nat).

Inductive JsError : Type :=
| TypeError (msg : string)
| NotFoundError (msg : string).

(** Integer-valued numbers (canvas sizes, random integers) are kept as [Z];
    [num_of_Z] is their value as a JavaScript number.  Every magnitude the
    program produces is far below 2^53, where the conversion is exact. *)
Definition num_of_Z (z : Z) : float :=
  if (z <? 0)%Z
  then PrimFloat.opp (PrimFloat.of_uint63 (Uint63.of_Z (Z.opp z)))
  else PrimFloat.of_uint63 (Uint63.of_Z z).

(** [Math.PI] *)
Definition Math_PI : float := 0x1.921fb54442d18p+1%float.

(** ** Canvas elements and their 2D contexts *)

(** A fill or stroke style: a CSS colour string, or a colour template whose
    ["%alpha%"] placeholder was replaced by a number
    ([color.replace("%alpha%", alpha)]). *)
Inductive Style : Type :=
| Color (css : string)
| AlphaColor (template : string) (a : float).

(** The drawing calls a context received, each with the context state that
    was in force when it was issued. *)
Inductive DrawCmd : Type :=
| ClearRect (x y w h : float)
| FillRect (style : Style) (x y w h : float)
| FillText (style : Style) (fnt align text : string) (x y : float)
| DrawImage (url : string) (x y : float)
| BeginPath
| Arc (x y r a0 a1 : float) (anticlockwise : bool)
| Stroke (style : Style) (lw : float).

Record Canvas : Type := mkCanvas {
  cv_id : string;
  cv_width : Z;
  cv_height : Z;
  cv_styleTop : option Z;          (* [style.top], in px *)
  cv_font : string;
  cv_textAlign : string;
  cv_fillStyle : Style;
  cv_strokeStyle : Style;
  cv_lineWidth : float;
  cv_drawn : list DrawCmd          (* oldest first *)
}.

(** [document.createElement('canvas')]: the platform's defaults. *)
Definition new_canvas : Canvas :=
  {| cv_id := ""; cv_width := 300; cv_height := 150; cv_styleTop := None;
     cv_font := "10px sans-serif"; cv_textAlign := "start";
     cv_fillStyle := Color "#000000"; cv_strokeStyle := Color "#000000";
     cv_lineWidth := 1%float; cv_drawn := [] |}.

Definition set_cv_id (s : string) (c : Canvas) : Canvas :=
  mkCanvas s (cv_width c) (cv_height c) (cv_styleTop c) (cv_font c)
    (cv_textAlign c) (cv_fillStyle c) (cv_strokeStyle c) (cv_lineWidth c) (cv_drawn c).
Definition set_cv_width (z : Z) (c : Canvas) : Canvas :=
  mkCanvas (cv_id c) z (cv_height c) (cv_styleTop c) (cv_font c)
    (cv_textAlign c) (cv_fillStyle c) (cv_strokeStyle c) (cv_lineWidth c) (cv_drawn c).
Definition set_cv_height (z : Z) (c : Canvas) : Canvas :=
  mkCanvas (cv_id c) (cv_width c) z (cv_styleTop c) (cv_font c)
    (cv_textAlign c) (cv_fillStyle c) (cv_strokeStyle c) (cv_lineWidth c) (cv_drawn c).
Definition set_cv_styleTop (z : Z) (c : Canvas) : Canvas :=
  mkCanvas (cv_id c) (cv_width c) (cv_height c) (Some z) (cv_font c)
    (cv_textAlign c) (cv_fillStyle c) (cv_strokeStyle c) (cv_lineWidth c) (cv_drawn c).
Definition set_cv_font (s : string) (c : Canvas) : Canvas :=
  mkCanvas (cv_id c) (cv_width c) (cv_height c) (cv_styleTop c) s
    (cv_textAlign c) (cv_fillStyle c) (cv_strokeStyle c) (cv_lineWidth c) (cv_drawn c).
Definition set_cv_textAlign (s : string) (c : Canvas) : Canvas :=
  mkCanvas (cv_id c) (cv_width c) (cv_height c) (cv_styleTop c) (cv_font c)
    s (cv_fillStyle c) (cv_strokeStyle c) (cv_lineWidth c) (cv_drawn c).
Definition set_cv_fillStyle (s : Style) (c : Canvas) : Canvas :=
  mkCanvas (cv_id c) (cv_width c) (cv_height c) (cv_styleTop c) (cv_font c)
    (cv_textAlign c) s (cv_strokeStyle c) (cv_lineWidth c) (cv_drawn c).
Definition set_cv_strokeStyle (s : Style) (c : Canvas) : Canvas :=
  mkCanvas (cv_id c) (cv_width c) (cv_height c) (cv_styleTop c) (cv_font c)
    (cv_textAlign c) (cv_fillStyle c) s (cv_lineWidth c) (cv_drawn c).
Definition set_cv_lineWidth (x : float) (c : Canvas) : Canvas :=
  mkCanvas (cv_id c) (cv_width c) (cv_height c) (cv_styleTop c) (cv_font c)
    (cv_textAlign c) (cv_fillStyle c) (cv_strokeStyle c) x (cv_drawn c).
Definition draw (d : DrawCmd) (c : Canvas) : Canvas :=
  mkCanvas (cv_id c) (cv_width c) (cv_height c) (cv_styleTop c) (cv_font c)
    (cv_textAlign c) (cv_fillStyle c) (cv_strokeStyle c) (cv_lineWidth c)
    (cv_drawn c ++ [d]).

(** The context methods, as functions of the canvas they draw on. *)
Definition clearRect (x y w h : float) : Canvas -> Canvas := draw (ClearRect x y w h).
Definition fillRect (x y w h : float) (c : Canvas) : Canvas :=
  draw (FillRect (cv_fillStyle c) x y w h) c.
Definition fillText (text : string) (x y : float) (c : Canvas) : Canvas :=
  draw (FillText (cv_fillStyle c) (cv_font c) (cv_textAlign c) text x y) c.
Definition drawImage (url : string) (x y : float) : Canvas -> Canvas :=
  draw (DrawImage url x y).
Definition beginPath : Canvas -> Canvas := draw BeginPath.
Definition arc (x y r a0 a1 : float) (acw : bool) : Canvas -> Canvas :=
  draw (Arc x y r a0 a1 acw).
Definition stroke (c : Canvas) : Canvas :=
  draw (Stroke (cv_strokeStyle c) (cv_lineWidth c)) c.

(** ** The page *)

(** Lists updated at an index *)
Fixpoint update_nth {A : Type} (n : nat) (f : A -> A) (l : list A) : list A :=
  match l, n with
  | [], _ => []
  | x :: t, O => f x :: t
  | x :: t, S k => x :: update_nth k f t
  end.

(** [removeChild]: the children without the node, or [None] when the node is
    not a child. *)
Fixpoint remove_child (h : nat) (l : list nat) : option (list nat) :=
  match l with
  | [] => None
  | x :: t =>
      if Nat.eqb x h then Some t
      else match remove_child h t with
           | Some t' => Some (x :: t')
           | None => None
           end
  end.

Record DOM : Type := mkDOM {
  heap : list Canvas;        (* every canvas element created so far, by handle *)
  container : list nat;      (* children of the "container" element, in order *)
  window_ctx : JsRef;        (* the global [ctx]: the context of this canvas *)
  scroll : Z * Z             (* the window's scroll position *)
}.

(** The host: its clock and random source, as oracles read in order, and its
    sine function. *)
Record Host : Type := mkHost {
  clock : nat -> float;      (* the n-th reading of [Date.now()] *)
  clock_reads : nat;
  random : nat -> N;         (* the n-th raw random draw *)
  random_draws : nat;
  Math_sin : float -> float  (* the host's [Math.sin] *)
}.

(** Entities are opaque collaborators; only their identity matters here. *)
Definition Entity : Type := nat.

Record Dimensions : Type := mkDimensions {
  numRows : Z;
  numCols : Z
}.

(** What the engine reads of the board manager and of the entity globals. *)
Record Game : Type := mkGame {
  boardDimensions : Dimensions;
  currentLevel : Z;
  currentLevelMap : Dimensions;
  laserObstacles : list Entity;
  allEnemies : list Entity;
  player : option Entity         (* [None]: not initialised yet *)
}.

(** The engine's actions on its collaborators and on its own canvas, in the
    order they happen. *)
Inductive Event : Type :=
| ResourcesLoad (urls : list string)
| ResourcesOnReady
| CanvasWidth (w : Z)
| CanvasHeight (h : Z)
| EnemyUpdate (e : Entity) (dt : float)
| PlayerUpdate (p : Entity)
| ConsoleLog (msg : string)
| LaserUpdate (l : Entity) (dt : float)
| UpdateCostumes (dt : float)
| AnimationQueueUpdate (dt : float)
| PopoverUpdate (dt : float)
| CheckEnemyCollisions
| RenderBoard
| AnimationQueueRender
| EnemyRender (e : Entity)
| PlayerRender (p : Entity)
| PopoverRender
| RequestAnimationFrame.

(** The engine's closure variables. *)
Record EngineState : Type := mkEngine {
  eng_canvas : nat;              (* [canvas], and [ctx] as its context *)
  lastTime : option float        (* [None]: still undefined *)
}.

(** Modelled from the spec: [COSTUME_TYPE] is declared outside the sources at
    hand; the spec gives the costume kinds as the closed enumeration Dwarf,
    LaserMan, Ghost, which the code names [dwarf], [laserman] and [ghost]. *)
Inductive COSTUME_TYPE : Type := dwarf | laserman | ghost.

Record CostumeData : Type := mkCostumeData {
  costume : string;
  spriteURL : string;
  caption : string;
  imageLocation : float * float;         (* x, y *)
  originalImageYLocation : float
}.

(** [this.costumeData]: never assigned, the empty object, or a costume record
    carrying its [update] method. *)
Inductive CostumeSlot : Type :=
| CostumeUndefined
| CostumeEmpty
| CostumeFull (d : CostumeData).

Record Particle : Type := mkParticle {
  radius : float;
  lineWidth : float;
  alpha : float;
  center : Z * Z;                (* x, y *)
  color : option string          (* [None]: undefined *)
}.

(** [this.fireworks]: the three particles, and the canvas their [update]
    closures captured. *)
Record Fireworks : Type := mkFireworks {
  fw_canvas : nat;
  particle1 : Particle;
  particle2 : Particle;
  particle3 : Particle
}.

Record PopoverManager : Type := mkPopoverManager {
  ctx : JsRef;
  costumeData : CostumeSlot;
  fireworks : option Fireworks
}.

Record World : Type := mkWorld {
  dom : DOM;
  host : Host;
  game : Game;
  engine : EngineState;
  pm : PopoverManager;
  trace : list Event             (* oldest first *)
}.

Definition set_dom (d : DOM) (w : World) : World :=
  mkWorld d (host w) (game w) (engine w) (pm w) (trace w).
Definition set_host (h : Host) (w : World) : World :=
  mkWorld (dom w) h (game w) (engine w) (pm w) (trace w).
Definition set_game (g : Game) (w : World) : World :=
  mkWorld (dom w) (host w) g (engine w) (pm w) (trace w).
Definition set_engine (e : EngineState) (w : World) : World :=
  mkWorld (dom w) (host w) (game w) e (pm w) (trace w).
Definition set_pm (p : PopoverManager) (w : World) : World :=
  mkWorld (dom w) (host w) (game w) (engine w) p (trace w).
Definition log (e : Event) (w : World) : World :=
  mkWorld (dom w) (host w) (game w) (engine w) (pm w) (trace w ++ [e]).

Definition set_heap (l : list Canvas) (w : World) : World :=
  set_dom (mkDOM l (container (dom w)) (window_ctx (dom w)) (scroll (dom w))) w.
Definition set_container (l : list nat) (w : World) : World :=
  set_dom (mkDOM (heap (dom w)) l (window_ctx (dom w)) (scroll (dom w))) w.
Definition set_window_ctx (r : JsRef) (w : World) : World :=
  set_dom (mkDOM (heap (dom w)) (container (dom w)) r (scroll (dom w))) w.
Definition set_scroll (p : Z * Z) (w : World) : World :=
  set_dom (mkDOM (heap (dom w)) (container (dom w)) (window_ctx (dom w)) p) w.
Definition set_ctx (r : JsRef) (w : World) : World :=
  set_pm (mkPopoverManager r (costumeData (pm w)) (fireworks (pm w))) w.
Definition set_costumeData (c : CostumeSlot) (w : World) : World :=
  set_pm (mkPopoverManager (ctx (pm w)) c (fireworks (pm w))) w.
Definition set_fireworks (f : option Fireworks) (w : World) : World :=
  set_pm (mkPopoverManager (ctx (pm w)) (costumeData (pm w)) f) w.
Definition set_lastTime (t : option float) (w : World) : World :=
  set_engine (mkEngine (eng_canvas (engine w)) t) w.
Definition set_eng_canvas (h : nat) (w : World) : World :=
  set_engine (mkEngine h (lastTime (engine w))) w.
Definition set_currentLevel (z : Z) (w : World) : World :=
  set_game (mkGame (boardDimensions (game w)) z (currentLevelMap (game w))
              (laserObstacles (game w)) (allEnemies (game w)) (player (game w))) w.

(** The canvas behind a handle. *)
Definition deref (w : World) (h : nat) : Canvas := nth h (heap (dom w)) new_canvas.

(** ** Computations that change the page and may throw *)

Inductive Result (A : Type) : Type :=
| Ok (a : A) (w : World)
| Throw (e : JsError).
Arguments Ok {A} a w.
Arguments Throw {A} e.

Definition M (A : Type) : Type := World -> Result A.

Definition ret {A : Type} (a : A) : M A := fun w => Ok a w.
Definition bind {A B : Type} (m : M A) (k : A -> M B) : M B :=
  fun w => match m w with
           | Ok a w' => k a w'
           | Throw e => Throw e
           end.
Definition throw {A : Type} (e : JsError) : M A := fun _ => Throw e.
Definition gets {A : Type} (f : World -> A) : M A := fun w => Ok (f w) w.
Definition modify (f : World -> World) : M unit := fun w => Ok tt (f w).

Declare Scope js_scope.
Delimit Scope js_scope with js.
Notation "x <- m ;; k" := (bind m (fun x => k))
  (at level 61, m at next level, right associativity) : js_scope.
Notation "m ;; k" := (bind m (fun _ => k))
  (at level 61, right associativity) : js_scope.
Local Open Scope js_scope.

(** [l.forEach(f)] *)
Fixpoint forEach {A : Type} (l : list A) (f : A -> M unit) : M unit :=
  match l with
  | [] => ret tt
  | x :: t => f x ;; forEach t f
  end.

(** [Date.now()] *)
Definition Date_now : M float :=
  fun w =>
    let h := host w in
    Ok (clock h (clock_reads h))
       (set_host (mkHost (clock h) (S (clock_reads h)) (random h) (random_draws h)
                    (Math_sin h)) w).

(** Modelled from the spec: [randomIntegerInRange] is defined outside the
    sources at hand; the spec gives its result as a uniform integer of the
    closed range.  The raw draw comes from the host's random source. *)
Definition randomIntegerInRange (lo hi : Z) : M Z :=
  fun w =>
    let h := host w in
    let raw := Z.of_N (random h (random_draws h)) in
    Ok (lo + raw mod (hi - lo + 1))%Z
       (set_host (mkHost (clock h) (clock_reads h) (random h) (S (random_draws h))
                    (Math_sin h)) w).

(** [document.createElement('canvas')] *)
Definition createElement_canvas : M nat :=
  fun w => Ok (List.length (heap (dom w))) (set_heap (heap (dom w) ++ [new_canvas]) w).

(** Writes through a canvas handle. *)
Definition on_canvas (h : nat) (f : Canvas -> Canvas) : M unit :=
  modify (fun w => set_heap (update_nth h f (heap (dom w))) w).

(** [document.getElementById("container").appendChild(c)] *)
Definition container_appendChild (h : nat) : M unit :=
  modify (fun w => set_container (container (dom w) ++ [h]) w).

(** [document.getElementById("container").removeChild(c)] *)
Definition container_removeChild (h : nat) : M unit :=
  fun w => match remove_child h (container (dom w)) with
           | Some l => Ok tt (set_container l w)
           | None => Throw (NotFoundError "The node to be removed is not a child of this node")
           end.

(** ** js/popover.js *)

Definition POPOVER_COLORS_blueGray : string := "rgb(71, 70, 81)".
Definition POPOVER_COLORS_gray : string := "rgb(186, 186, 186)".
Definition POPOVER_COLORS_orange : string := "rgb(255, 184, 6)".
Definition POPOVER_COLORS_green : string := "rgb(171, 252, 170)".

(** [new PopoverManager()].  The constructor's [var ctx = null] binds a local
    variable: the new object itself has no [ctx] property. *)
Definition PopoverManager_new : PopoverManager :=
  let ctx_local := Null in
  {| ctx := Undefined; costumeData := CostumeUndefined; fireworks := None |}.

(** Reading a property of [this.ctx] *)
Definition this_ctx : M nat :=
  fun w => match ctx (pm w) with
           | Ref h => Ok h w
           | Null => Throw (TypeError "Cannot read properties of null")
           | Undefined => Throw (TypeError "Cannot read properties of undefined")
           end.

(** Reading a property of [window.ctx] *)
Definition window_canvas : M Canvas :=
  fun w => match window_ctx (dom w) with
           | Ref h => Ok (deref w h) w
           | Null => Throw (TypeError "Cannot read properties of null")
           | Undefined => Throw (TypeError "Cannot read properties of undefined")
           end.

Definition ctx_canvas : M Canvas :=
  h <- this_ctx ;; gets (fun w => deref w h).

Definition on_ctx (f : Canvas -> Canvas) : M unit :=
  h <- this_ctx ;; on_canvas h f.

Definition _addCanvasToDOMWithID (id : string) : M unit :=
  popover <- createElement_canvas ;;
  on_canvas popover (set_cv_id id) ;;
  container_appendChild popover ;;
  modify (set_ctx (Ref popover)) ;;
  if String.eqb id "costume-popover" then
    board <- window_canvas ;;
    on_canvas popover (set_cv_width (cv_width board)) ;;
    board <- window_canvas ;;
    on_canvas popover (set_cv_height (cv_height board))
  else ret tt.

Definition showGameStartPopover : M unit :=
  _addCanvasToDOMWithID "game-start-popover" ;;
  modify (set_costumeData CostumeEmpty) ;;
  on_ctx (set_cv_width 720) ;;
  on_ctx (set_cv_height 600) ;;
  c <- ctx_canvas ;;
  let horizontalCenter := (num_of_Z (cv_width c) / 2)%float in
  on_ctx (set_cv_font "32pt Amatic SC") ;;
  on_ctx (set_cv_textAlign "center") ;;
  on_ctx (set_cv_fillStyle (Color POPOVER_COLORS_blueGray)) ;;
  on_ctx (fun c => fillRect 0 0 (num_of_Z (cv_width c)) (num_of_Z (cv_height c)) c) ;;
  on_ctx (set_cv_fillStyle (Color POPOVER_COLORS_gray)) ;;
  on_ctx (fillText "This is Jack:" horizontalCenter 80) ;;
  on_ctx (fillText "Help Jack find the" horizontalCenter 300) ;;
  on_ctx (set_cv_fillStyle (Color POPOVER_COLORS_orange)) ;;
  on_ctx (fillText "CANDYCORN" horizontalCenter 350) ;;
  on_ctx (set_cv_fillStyle (Color POPOVER_COLORS_gray)) ;;
  on_ctx (fillText "he dropped while" horizontalCenter 390) ;;
  on_ctx (fillText "trick-or-treating!" horizontalCenter 430) ;;
  on_ctx (set_cv_font "24pt Amatic SC") ;;
  on_ctx (fillText "[ space ] to continue" horizontalCenter 560) ;;
  on_ctx (set_cv_fillStyle (Color POPOVER_COLORS_orange)) ;;
  on_ctx (set_cv_font "32pt Amatic SC") ;;
  on_ctx (fillText "Jack" (horizontalCenter + 36) 80) ;;
  on_ctx (set_cv_font "24pt Amatic SC") ;;
  on_ctx (fillText "space" (horizontalCenter - 54) 560) ;;
  on_ctx (drawImage "images/jack.png" (horizontalCenter - 51) 60).

(** The palette the particles restart with ([colors] in [_setFireworks]). *)
Definition colors : list string :=
  ["rgba(255, 255, 255, %alpha%)"; "rgba(255, 184, 6, %alpha%)";
   "rgba(171, 252, 170, %alpha%)"].

(** [a[k]] for an integer [k] *)
Definition array_get {A : Type} (a : list A) (k : Z) : option A :=
  if (k <? 0)%Z then None else nth_error a (Z.to_nat k).

Definition set_radius (x : float) (p : Particle) : Particle :=
  mkParticle x (lineWidth p) (alpha p) (center p) (color p).
Definition set_lineWidth (x : float) (p : Particle) : Particle :=
  mkParticle (radius p) x (alpha p) (center p) (color p).
Definition set_alpha (x : float) (p : Particle) : Particle :=
  mkParticle (radius p) (lineWidth p) x (center p) (color p).
Definition set_center_x (x : Z) (p : Particle) : Particle :=
  mkParticle (radius p) (lineWidth p) (alpha p) (x, snd (center p)) (color p).
Definition set_center_y (y : Z) (p : Particle) : Particle :=
  mkParticle (radius p) (lineWidth p) (alpha p) (fst (center p), y) (color p).
Definition set_color (c : option string) (p : Particle) : Particle :=
  mkParticle (radius p) (lineWidth p) (alpha p) (center p) c.

(** The tail shared by the three [update] methods: a new random centre on
    the captured canvas and a new random colour. *)
Definition restart_at_random (canvas : nat) (p : Particle) : M Particle :=
  cv <- gets (fun w => deref w canvas) ;;
  x <- randomIntegerInRange 0 (cv_width cv) ;;
  let p := set_center_x x p in
  cv <- gets (fun w => deref w canvas) ;;
  y <- randomIntegerInRange 0 (cv_height cv) ;;
  let p := set_center_y y p in
  k <- randomIntegerInRange 0 (Z.of_nat (List.length colors) - 1) ;;
  ret (set_color (array_get colors k) p).

(** [fireworks.particle1.update] *)
Definition particle1_update (canvas : nat) (dt : float) (p : Particle) : M Particle :=
  let speed := 4%float in
  let ds := (speed * dt)%float in
  let p := set_lineWidth (lineWidth p + 100 * ds)%float p in
  let p := set_alpha (alpha p - ds)%float p in
  if (alpha p <? 0)%float then
    let p := set_alpha 1%float p in
    let p := set_lineWidth 0%float p in
    restart_at_random canvas p
  else ret p.

(** [fireworks.particle2.update] *)
Definition particle2_update (canvas : nat) (dt : float) (p : Particle) : M Particle :=
  let speed := 5%float in
  let ds := (speed * dt)%float in
  let p := set_alpha (alpha p - ds)%float p in
  let p := set_radius (radius p + 18 * ds)%float p in
  if (alpha p <? 0)%float then
    let p := set_alpha 1%float p in
    let p := set_radius 0%float p in
    restart_at_random canvas p
  else ret p.

(** [fireworks.particle3.update] *)
Definition particle3_update (canvas : nat) (dt : float) (p : Particle) : M Particle :=
  let speed := 20%float in
  let ds := (speed * dt)%float in
  let p := set_lineWidth (lineWidth p - 3 * ds)%float p in
  let p := set_radius (radius p + 10 * ds)%float p in
  if (lineWidth p <? 0)%float then
    let p := set_lineWidth 15%float p in
    let p := set_radius 0%float p in
    restart_at_random canvas p
  else ret p.

Definition _setFireworks : M unit :=
  canvas <- this_ctx ;;
  modify (set_fireworks (Some
    {| fw_canvas := canvas;
       particle1 := {| radius := 50; lineWidth := 0; alpha := 1; center := (0, 0)%Z;
                       color := Some "rgba(255, 184, 6, %alpha%)" |};
       particle2 := {| radius := 0; lineWidth := 10; alpha := 1; center := (0, 0)%Z;
                       color := Some "rgba(255, 184, 6, %alpha%)" |};
       particle3 := {| radius := 0; lineWidth := 20; alpha := 1; center := (0, 0)%Z;
                       color := Some "rgba(255, 184, 6, %alpha%)" |} |})).

(** One round of the loop of [_renderFireworks] *)
Definition render_particle (particle : Particle) : M unit :=
  match color particle with
  | None => throw (TypeError "Cannot read properties of undefined (reading 'replace')")
  | Some template =>
      on_ctx (set_cv_strokeStyle (AlphaColor template (alpha particle))) ;;
      on_ctx (set_cv_lineWidth (lineWidth particle)) ;;
      on_ctx beginPath ;;
      on_ctx (arc (num_of_Z (fst (center particle))) (num_of_Z (snd (center particle)))
                  (radius particle) 0 (2 * Math_PI)%float true) ;;
      on_ctx stroke
  end.

(** The own properties of [this.fireworks] are visited in creation order; a
    [for .. in] over [undefined] visits nothing. *)
Definition _renderFireworks : M unit :=
  fw <- gets (fun w => fireworks (pm w)) ;;
  match fw with
  | None => ret tt
  | Some f =>
      render_particle (particle1 f) ;;
      render_particle (particle2 f) ;;
      render_particle (particle3 f)
  end.

Definition _updateFireworks (dt : float) : M unit :=
  fw <- gets (fun w => fireworks (pm w)) ;;
  match fw with
  | None => ret tt
  | Some f =>
      p1 <- particle1_update (fw_canvas f) dt (particle1 f) ;;
      p2 <- particle2_update (fw_canvas f) dt (particle2 f) ;;
      p3 <- particle3_update (fw_canvas f) dt (particle3 f) ;;
      modify (set_fireworks (Some (mkFireworks (fw_canvas f) p1 p2 p3)))
  end.

Definition _renderEndOfGamePopover : M unit :=
  on_ctx (fun c => clearRect 0 0 (num_of_Z (cv_width c)) (num_of_Z (cv_height c)) c) ;;
  on_ctx (set_cv_width 1280) ;;
  on_ctx (set_cv_height 700) ;;
  c <- ctx_canvas ;;
  let horizontalCenter := (num_of_Z (cv_width c) / 2)%float in
  let verticalCenter := (num_of_Z (cv_height c) / 2)%float in
  on_ctx (set_cv_fillStyle (Color POPOVER_COLORS_blueGray)) ;;
  on_ctx (fun c => fillRect 0 0 (num_of_Z (cv_width c)) (num_of_Z (cv_height c)) c) ;;
  on_ctx (set_cv_font "48pt Amatic SC") ;;
  on_ctx (set_cv_textAlign "center") ;;
  on_ctx (set_cv_fillStyle (Color POPOVER_COLORS_orange)) ;;
  on_ctx (fillText "Happy Halloween" horizontalCenter verticalCenter) ;;
  _renderFireworks.

Definition presentGameFinishPopover : M unit :=
  _addCanvasToDOMWithID "game-end-popover" ;;
  _setFireworks ;;
  _renderEndOfGamePopover.

(** Reading a property of the costume record.  On the empty object the
    renderer and [update] fail as well, a few property reads later. *)
Definition this_costumeData : M CostumeData :=
  fun w => match costumeData (pm w) with
           | CostumeFull d => Ok d w
           | CostumeEmpty => Throw (TypeError "Cannot read properties of undefined")
           | CostumeUndefined => Throw (TypeError "Cannot read properties of undefined")
           end.

Definition set_imageLocation_y (y : float) (d : CostumeData) : CostumeData :=
  mkCostumeData (costume d) (spriteURL d) (caption d) (fst (imageLocation d), y)
    (originalImageYLocation d).
Definition set_originalImageYLocation (y : float) (d : CostumeData) : CostumeData :=
  mkCostumeData (costume d) (spriteURL d) (caption d) (imageLocation d) y.

(** [costumeData.update], the closure installed by
    [_setCostumeDataForCostume]; it is called without arguments. *)
Definition costumeData_update : M unit :=
  d <- this_costumeData ;;
  let maxDY := 8%float in
  let frequencyControl := 800%float in
  now <- Date_now ;;
  sin <- gets (fun w => Math_sin (host w)) ;;
  let dy := (maxDY * sin (now / frequencyControl))%float in
  modify (set_costumeData
            (CostumeFull (set_imageLocation_y (originalImageYLocation d + dy)%float d))).

Definition _setCostumeDataForCostume (c : COSTUME_TYPE) : M unit :=
  let '(name, url, text) :=
    match c with
    | dwarf => ("DWARF", "images/dwarf-red.png", "Rocks were meant for smashing.")
    | laserman => ("LASERMAN", "images/glasses-blue.png", "Lasers shmasers.")
    | ghost => ("GHOST", "images/ghost-costume.png", "100% Believeable.")
    end in
  cv <- ctx_canvas ;;
  modify (set_costumeData (CostumeFull
    {| costume := name; spriteURL := url; caption := text;
       imageLocation := ((num_of_Z (cv_width cv) / 2 - 51)%float, 60%float);
       originalImageYLocation := 60%float |})).

Definition presentLaserManPopover : M unit :=
  _addCanvasToDOMWithID "costume-popover" ;; _setCostumeDataForCostume laserman.
Definition presentDwarfPopover : M unit :=
  _addCanvasToDOMWithID "costume-popover" ;; _setCostumeDataForCostume dwarf.
Definition presentGhostPopover : M unit :=
  _addCanvasToDOMWithID "costume-popover" ;; _setCostumeDataForCostume ghost.

Definition removePopover : M unit :=
  fun w =>
    match ctx (pm w) with
    | Null => Ok tt w
    | _ => (canvas <- this_ctx ;;
            container_removeChild canvas ;;
            modify (set_ctx Null)) w
    end.

Definition _isDisplayingCostumePopover : M bool :=
  fun w => match ctx (pm w) with
           | Null => Ok false w
           | _ => (c <- ctx_canvas ;; ret (String.eqb (cv_id c) "costume-popover")) w
           end.

Definition _isDisplayingEndOfGamePopover : M bool :=
  fun w => match ctx (pm w) with
           | Null => Ok false w
           | _ => (c <- ctx_canvas ;; ret (String.eqb (cv_id c) "game-end-popover")) w
           end.

Definition _renderCostumePopover : M unit :=
  modify (set_scroll (0, 0)%Z) ;;
  board <- window_canvas ;;
  on_ctx (set_cv_styleTop (- cv_height board)) ;;
  c <- ctx_canvas ;;
  let horizontalCenter := (num_of_Z (cv_width c) / 2)%float in
  let canvasHeight := num_of_Z (cv_height c) in
  on_ctx (fun c => clearRect 0 0 (num_of_Z (cv_width c)) (num_of_Z (cv_height c)) c) ;;
  on_ctx (set_cv_fillStyle (Color "rgba(71, 70, 81, 0.9)")) ;;
  on_ctx (set_cv_textAlign "center") ;;
  on_ctx (set_cv_font "32pt Amatic SC") ;;
  on_ctx (fun c => fillRect 0 0 (num_of_Z (cv_width c)) (num_of_Z (cv_height c)) c) ;;
  on_ctx (set_cv_fillStyle (Color POPOVER_COLORS_orange)) ;;
  d <- this_costumeData ;;
  on_ctx (fillText (costume d) horizontalCenter (0.1 * canvasHeight)%float) ;;
  on_ctx (set_cv_fillStyle (Color "white")) ;;
  on_ctx (fillText (caption d) horizontalCenter (0.7 * canvasHeight)%float) ;;
  on_ctx (set_cv_font "24pt Amatic SC") ;;
  on_ctx (set_cv_fillStyle (Color POPOVER_COLORS_gray)) ;;
  on_ctx (fillText "COSTUME" horizontalCenter (0.2 * canvasHeight)%float) ;;
  on_ctx (fillText "[ space ] to continue" horizontalCenter (0.9 * canvasHeight)%float) ;;
  on_ctx (set_cv_fillStyle (Color "orange")) ;;
  on_ctx (fillText "space" (horizontalCenter - 54)%float (0.9 * canvasHeight)%float) ;;
  modify (set_costumeData
            (CostumeFull (set_originalImageYLocation (0.25 * canvasHeight)%float d))) ;;
  d <- this_costumeData ;;
  on_ctx (drawImage (spriteURL d) (horizontalCenter - 51)%float (snd (imageLocation d))).

(** [PopoverManager.prototype.update] *)
Definition PopoverManager_update (dt : float) : M unit :=
  costume <- _isDisplayingCostumePopover ;;
  if costume then costumeData_update
  else
    finish <- _isDisplayingEndOfGamePopover ;;
    if finish then _updateFireworks dt else ret tt.

(** [PopoverManager.prototype.render] *)
Definition PopoverManager_render : M unit :=
  costume <- _isDisplayingCostumePopover ;;
  if costume then _renderCostumePopover
  else
    finish <- _isDisplayingEndOfGamePopover ;;
    if finish then _renderEndOfGamePopover else ret tt.

(** ** The engine *)

(** The images the engine asks the asset loader for. *)
Definition engine_assets : list string :=
  ["images/stone-block.png"; "images/water-block.png"; "images/grass-block.png";
   "images/enemy-bug.png"; "images/char-boy.png"; "images/jack.png";
   "images/rock-red.png"; "images/rock-blue.png"; "images/rock-yellow.png";
   "images/Rock.png"; "images/pumpkin.png"; "images/skull.png";
   "images/laser-left.png"; "images/laser-right.png"; "images/web.png";
   "images/glasses-red.png"; "images/glasses-blue.png"; "images/glasses-yellow.png";
   "images/dwarf-red.png"; "images/dwarf-blue.png"; "images/dwarf-yellow.png";
   "images/ghost-costume.png"; "images/ghost-left.png";
   "images/ghost-left-attacking.png"; "images/ghost-right.png";
   "images/ghost-right-attacking.png"; "images/spider.png"; "images/zombie.png";
   "images/Selector.png"; "images/candy-corn.png"].

(** [now - lastTime] with [lastTime] still undefined is [NaN]. *)
Definition to_number (x : option float) : float :=
  match x with
  | Some v => v
  | None => PrimFloat.nan
  end.

Definition updateCanvasDimensions : M unit :=
  canvas <- gets (fun w => eng_canvas (engine w)) ;;
  level <- gets (fun w => currentLevelMap (game w)) ;;
  on_canvas canvas (set_cv_width (101 * numCols level)) ;;
  modify (log (CanvasWidth (101 * numCols level))) ;;
  level <- gets (fun w => currentLevelMap (game w)) ;;
  on_canvas canvas (set_cv_height (101 * numRows level)) ;;
  modify (log (CanvasHeight (101 * numRows level))).

Definition updateEntities (dt : float) : M unit :=
  enemies <- gets (fun w => allEnemies (game w)) ;;
  forEach enemies (fun enemy => modify (log (EnemyUpdate enemy dt))) ;;
  p <- gets (fun w => player (game w)) ;;
  match p with
  | Some pl => modify (log (PlayerUpdate pl))
  | None => modify (log (ConsoleLog "Wait for player to initialize"))
  end ;;
  lasers <- gets (fun w => laserObstacles (game w)) ;;
  forEach lasers (fun laser => modify (log (LaserUpdate laser dt))).

Definition updateCollectibles (dt : float) : M unit :=
  modify (log (UpdateCostumes dt)).

Definition updateAnimations (dt : float) : M unit :=
  modify (log (AnimationQueueUpdate dt)).

Definition updatePopover (dt : float) : M unit :=
  modify (log (PopoverUpdate dt)) ;;
  PopoverManager_update dt.

Definition checkCollisions : M unit :=
  modify (log CheckEnemyCollisions).

Definition update (dt : float) : M unit :=
  updateCanvasDimensions ;;
  updateEntities dt ;;
  updateCollectibles dt ;;
  updateAnimations dt ;;
  updatePopover dt ;;
  checkCollisions.

Definition renderBoard : M unit := modify (log RenderBoard).

Definition renderAnimations : M unit := modify (log AnimationQueueRender).

Definition renderEntities : M unit :=
  enemies <- gets (fun w => allEnemies (game w)) ;;
  forEach enemies (fun enemy => modify (log (EnemyRender enemy))) ;;
  p <- gets (fun w => player (game w)) ;;
  match p with
  | Some pl => modify (log (PlayerRender pl))
  | None => modify (log (ConsoleLog "Wait for player to initialize"))
  end.

Definition renderPopover : M unit :=
  modify (log PopoverRender) ;;
  PopoverManager_render.

Definition render : M unit :=
  renderBoard ;;
  renderAnimations ;;
  renderEntities ;;
  renderPopover.

(** One run of the loop body.  The host calls it again for the next frame. *)
Definition main : M unit :=
  now <- Date_now ;;
  last <- gets (fun w => lastTime (engine w)) ;;
  let dt := ((now - to_number last) / 1000)%float in
  update dt ;;
  render ;;
  modify (set_lastTime (Some now)) ;;
  modify (log RequestAnimationFrame).

Definition reset : M unit := ret tt.

Definition init : M unit :=
  reset ;;
  now <- Date_now ;;
  modify (set_lastTime (Some now)) ;;
  modify (set_currentLevel 1) ;;
  showGameStartPopover ;;
  main.

(** The body of [Engine(global)], up to the registration of [init]. *)
Definition Engine : M unit :=
  canvas <- createElement_canvas ;;
  modify (set_eng_canvas canvas) ;;
  board <- gets (fun w => boardDimensions (game w)) ;;
  on_canvas canvas (set_cv_width (101 * numCols board)) ;;
  board <- gets (fun w => boardDimensions (game w)) ;;
  on_canvas canvas (set_cv_height (101 * numRows board)) ;;
  on_canvas canvas (set_cv_id "game-board") ;;
  container_appendChild canvas ;;
  modify (log (ResourcesLoad engine_assets)) ;;
  modify (log ResourcesOnReady) ;;
  modify (set_window_ctx (Ref canvas)).

(** The page once its scripts are loaded: an empty container, and the
    popover manager that js/popover.js has just constructed. *)
Definition page (h : Host) (g : Game) : World :=
  {| dom := {| heap := []; container := []; window_ctx := Undefined; scroll := (0, 0)%Z |};
     host := h; game := g;
     engine := {| eng_canvas := 0; lastTime := None |};
     pm := PopoverManager_new;
     trace := [] |}.

(** ** Popover kinds and the states of a running game *)

Inductive PopoverKind : Type :=
| GameStart
| CostumeReveal (c : COSTUME_TYPE)
| GameEnd.

(** The show operation of each kind *)
Definition show (k : PopoverKind) : M unit :=
  match k with
  | GameStart => showGameStartPopover
  | CostumeReveal dwarf => presentDwarfPopover
  | CostumeReveal laserman => presentLaserManPopover
  | CostumeReveal ghost => presentGhostPopover
  | GameEnd => presentGameFinishPopover
  end.

Definition popover_id (k : PopoverKind) : string :=
  match k with
  | GameStart => "game-start-popover"
  | CostumeReveal _ => "costume-popover"
  | GameEnd => "game-end-popover"
  end.

(** What can happen to a running game: a frame, a popover shown or removed
    on behalf of the player or of the board, and the collaborators changing
    their own data.  Popovers are shown and removed between frames: a
    collaborator that calls the manager from inside [update] is not
    modelled. *)
Inductive step : World -> World -> Prop :=
| step_frame w w' : main w = Ok tt w' -> step w w'
| step_show k w w' : show k w = Ok tt w' -> step w w'
| step_remove w w' : removePopover w = Ok tt w' -> step w w'
| step_game g w : step w (set_game g w).

(** The states of a running game: the engine was set up on the loaded page,
    the assets became ready, [init] ran, and then anything above. *)
Inductive reachable : World -> Prop :=
| reach_init h g g' w0 w :
    Engine (page h g) = Ok tt w0 -> init (set_game g' w0) = Ok tt w -> reachable w
| reach_step w w' : reachable w -> step w w' -> reachable w'.

(** A host whose clock advances 16 ms per reading and whose sine is 0, and a
    board of six rows and five columns with two enemies, one laser and no
    player yet. *)
Definition sample_host : Host :=
  {| clock := fun n => (1700000000000 + 16 * num_of_Z (Z.of_nat n))%float;
     clock_reads := 0;
     random := fun n => N.of_nat (7 * n + 3);
     random_draws := 0;
     Math_sin := fun x => 0%float |}.

Definition sample_game : Game :=
  {| boardDimensions := {| numRows := 6; numCols := 5 |};
     currentLevel := 0;
     currentLevelMap := {| numRows := 6; numCols := 5 |};
     laserObstacles := [7%nat];
     allEnemies := [1%nat; 2%nat];
     player := None |}.

(** The [n]-th raw draw of the host's random source, reduced to the closed
    range [lo .. hi] as [randomIntegerInRange] does. *)
Definition drawn_in_range (w : World) (n : nat) (lo hi : Z) : Z :=
  (lo + Z.of_N (random (host w) n) mod (hi - lo + 1))%Z.

(** The world after [k] more random draws. *)
Definition after_draws (k : nat) (w : World) : World :=
  set_host (mkHost (clock (host w)) (clock_reads (host w)) (random (host w))
              (k + random_draws (host w)) (Math_sin (host w))) w.

(** The page after a fresh canvas element, by now in state [c], was
    appended to the container and became the manager's surface. *)
Definition attached (c : Canvas) (w : World) : World :=
  let h := List.length (heap (dom w)) in
  set_ctx (Ref h)
    (set_container (container (dom w) ++ [h]) (set_heap (heap (dom w) ++ [c]) w)).

(** The page after the engine did [es], in this order. *)
Definition logs (es : list Event) (w : World) : World :=
  mkWorld (dom w) (host w) (game w) (engine w) (pm w) (trace w ++ es).

(** The world after one more reading of the clock. *)
Definition after_clock_read (w : World) : World :=
  set_host (mkHost (clock (host w)) (S (clock_reads (host w))) (random (host w))
              (random_draws (host w)) (Math_sin (host w))) w.

(** The reading the next [Date.now()] returns. *)
Definition current_time (w : World) : float := clock (host w) (clock_reads (host w)).

(** The start screen as [showGameStartPopover] leaves it. *)
Definition game_start_canvas : Canvas :=
  {| cv_id := "game-start-popover"; cv_width := 720; cv_height := 600;
     cv_styleTop := None; cv_font := "24pt Amatic SC"; cv_textAlign := "center";
     cv_fillStyle := Color "rgb(255, 184, 6)"; cv_strokeStyle := Color "#000000";
     cv_lineWidth := 1%float;
     cv_drawn :=
       [FillRect (Color "rgb(71, 70, 81)") 0 0 720 600;
        FillText (Color "rgb(186, 186, 186)") "32pt Amatic SC" "center"
          "This is Jack:" 360 80;
        FillText (Color "rgb(186, 186, 186)") "32pt Amatic SC" "center"
          "Help Jack find the" 360 300;
        FillText (Color "rgb(255, 184, 6)") "32pt Amatic SC" "center"
          "CANDYCORN" 360 350;
        FillText (Color "rgb(186, 186, 186)") "32pt Amatic SC" "center"
          "he dropped while" 360 390;
        FillText (Color "rgb(186, 186, 186)") "32pt Amatic SC" "center"
          "trick-or-treating!" 360 430;
        FillText (Color "rgb(186, 186, 186)") "24pt Amatic SC" "center"
          "[ space ] to continue" 360 560;
        FillText (Color "rgb(255, 184, 6)") "32pt Amatic SC" "center" "Jack" 396 80;
        FillText (Color "rgb(255, 184, 6)") "24pt Amatic SC" "center" "space" 306 560;
        DrawImage "images/jack.png" 309 60] |}.

(** The content record [_setCostumeDataForCostume] selects. *)
Definition costume_content (c : COSTUME_TYPE) : string * string * string :=
  match c with
  | dwarf => ("DWARF", "images/dwarf-red.png", "Rocks were meant for smashing.")
  | laserman => ("LASERMAN", "images/glasses-blue.png", "Lasers shmasers.")
  | ghost => ("GHOST", "images/ghost-costume.png", "100% Believeable.")
  end.

(** The manager's surface, if it has one. *)
Definition surface (w : World) : option nat :=
  match ctx (pm w) with
  | Ref h => Some h
  | _ => None
  end.

Definition colours_defined (f : Fireworks) : Prop :=
  color (particle1 f) <> None /\ color (particle2 f) <> None
  /\ color (particle3 f) <> None.

(** [w'] is [w] but for the host's oracles having been read. *)
Definition same_but_host (w w' : World) : Prop :=
  dom w' = dom w /\ game w' = game w /\ engine w' = engine w
  /\ trace w' = trace w /\ pm w' = pm w.

(** The engine's canvas after [updateCanvasDimensions]. *)
Definition resized (g : Game) (l : list Canvas) (canvas : nat) : list Canvas :=
  update_nth canvas (set_cv_height (101 * numRows (currentLevelMap g)))
    (update_nth canvas (set_cv_width (101 * numCols (currentLevelMap g))) l).

(** The player's step of [updateEntities] and of [renderEntities]. *)
Definition player_update_step (g : Game) : Event :=
  match player g with
  | Some p => PlayerUpdate p
  | None => ConsoleLog "Wait for player to initialize"
  end.

Definition player_render_step (g : Game) : Event :=
  match player g with
  | Some p => PlayerRender p
  | None => ConsoleLog "Wait for player to initialize"
  end.

(** The sub-steps of one [update(dt)], in the order the claim lists them:
    surface size, enemies, player, obstacles, collectibles, animations,
    popover, collisions. *)
Definition update_steps (dt : float) (g : Game) : list Event :=
  [CanvasWidth (101 * numCols (currentLevelMap g));
   CanvasHeight (101 * numRows (currentLevelMap g))]
  ++ map (fun e => EnemyUpdate e dt) (allEnemies g)
  ++ [player_update_step g]
  ++ map (fun l => LaserUpdate l dt) (laserObstacles g)
  ++ [UpdateCostumes dt; AnimationQueueUpdate dt; PopoverUpdate dt;
      CheckEnemyCollisions].

(** The sub-steps of one [render()]: board, animations, enemies, player,
    popover. *)
Definition render_steps (g : Game) : list Event :=
  [RenderBoard; AnimationQueueRender]
  ++ map EnemyRender (allEnemies g)
  ++ [player_render_step g; PopoverRender].

(** The time step the loop body computes. *)
Definition frame_dt (w : World) : float :=
  ((current_time w - to_number (lastTime (engine w))) / 1000)%float.

(** What holds of every state of a running game. *)
Definition wf (w : World) : Prop :=
  (exists b, window_ctx (dom w) = Ref b)
  /\ (eng_canvas (engine w) < List.length (heap (dom w)))%nat
  /\ match ctx (pm w) with
     | Undefined => False
     | Null => True
     | Ref h =>
         (h < List.length (heap (dom w)))%nat
         /\ In h (container (dom w))
         /\ (cv_id (deref w h) = "costume-popover" ->
             exists d, costumeData (pm w) = CostumeFull d)
         /\ (cv_id (deref w h) = "game-end-popover" ->
             exists f, fireworks (pm w) = Some f /\ colours_defined f)
     end.

Arguments set_dom _ _ /.
Arguments set_host _ _ /.
Arguments set_game _ _ /.
Arguments set_engine _ _ /.
Arguments set_pm _ _ /.
Arguments log _ _ /.
Arguments logs _ _ /.
Arguments set_heap _ _ /.
Arguments set_container _ _ /.
Arguments set_window_ctx _ _ /.
Arguments set_scroll _ _ /.
Arguments set_ctx _ _ /.
Arguments set_costumeData _ _ /.
Arguments set_fireworks _ _ /.
Arguments set_lastTime _ _ /.
Arguments set_eng_canvas _ _ /.
Arguments set_currentLevel _ _ /.
Arguments after_draws _ _ /.
Arguments after_clock_read _ /.
Arguments attached _ _ /.
Arguments on_canvas _ _ _ /.
Arguments modify _ _ /.
Arguments bind {_ _} _ _ _ /.
Arguments ret {_} _ _ /.
Arguments gets {_} _ _ /.
Arguments throw {_} _ _ /.
Arguments deref _ _ /.

(** ** Sample states *)

(** The state a computation leaves (the state it started from if it throws). *)
Definition run (m : M unit) (w : World) : World :=
  match m w with
  | Ok _ w' => w'
  | Throw _ => w
  end.

(** A game right after [init]: the start screen is up, one frame has run. *)
Definition started : World :=
  Eval vm_compute in run init (run Engine (page sample_host sample_game)).


(** The dwarf costume popover, just shown, and after one frame. *)
Definition dwarf_shown : World := Eval vm_compute in run presentDwarfPopover started.
Definition dwarf_after_frame : World := Eval vm_compute in run main dwarf_shown.

(** The first and the third particle as [_setFireworks] creates them. *)
Definition particle1_initial : Particle :=
  mkParticle 50 0 1 (0, 0)%Z (Some "rgba(255, 184, 6, %alpha%)").
Definition particle3_initial : Particle :=
  mkParticle 0 20 1 (0, 0)%Z (Some "rgba(255, 184, 6, %alpha%)").

(** ** The renderers, as functions of the surface they draw on *)

(** What one run of [_renderCostumePopover] leaves of a surface [c], when
    the board canvas is [boardHeight] high and the costume record is [d]. *)
Definition costume_paint (boardHeight : Z) (d : CostumeData) (c : Canvas) : Canvas :=
  let W := num_of_Z (cv_width c) in
  let H := num_of_Z (cv_height c) in
  let horizontalCenter := (W / 2)%float in
  {| cv_id := cv_id c; cv_width := cv_width c; cv_height := cv_height c;
     cv_styleTop := Some (- boardHeight)%Z;
     cv_font := "24pt Amatic SC"; cv_textAlign := "center";
     cv_fillStyle := Color "orange";
     cv_strokeStyle := cv_strokeStyle c; cv_lineWidth := cv_lineWidth c;
     cv_drawn :=
       cv_drawn c
       ++ [ClearRect 0 0 W H;
           FillRect (Color "rgba(71, 70, 81, 0.9)") 0 0 W H;
           FillText (Color POPOVER_COLORS_orange) "32pt Amatic SC" "center"
             (costume d) horizontalCenter (0.1 * H);
           FillText (Color "white") "32pt Amatic SC" "center"
             (caption d) horizontalCenter (0.7 * H);
           FillText (Color POPOVER_COLORS_gray) "24pt Amatic SC" "center"
             "COSTUME" horizontalCenter (0.2 * H);
           FillText (Color POPOVER_COLORS_gray) "24pt Amatic SC" "center"
             "[ space ] to continue" horizontalCenter (0.9 * H);
           FillText (Color "orange") "24pt Amatic SC" "center"
             "space" (horizontalCenter - 54) (0.9 * H);
           DrawImage (spriteURL d) (horizontalCenter - 51) (snd (imageLocation d))] |}.

(** The three calls [_renderFireworks] makes for one particle whose colour
    template is [template]. *)
Definition particle_commands (template : string) (p : Particle) : list DrawCmd :=
  [BeginPath;
   Arc (num_of_Z (fst (center p))) (num_of_Z (snd (center p))) (radius p)
     0 (2 * Math_PI) true;
   Stroke (AlphaColor template (alpha p)) (lineWidth p)].

(** What one run of [_renderEndOfGamePopover] leaves of a surface [c], for
    the fireworks [f] whose colour templates are [t1], [t2] and [t3]. *)
Definition end_paint (t1 t2 t3 : string) (f : Fireworks) (c : Canvas) : Canvas :=
  {| cv_id := cv_id c; cv_width := 1280; cv_height := 700;
     cv_styleTop := cv_styleTop c;
     cv_font := "48pt Amatic SC"; cv_textAlign := "center";
     cv_fillStyle := Color POPOVER_COLORS_orange;
     cv_strokeStyle := AlphaColor t3 (alpha (particle3 f));
     cv_lineWidth := lineWidth (particle3 f);
     cv_drawn :=
       cv_drawn c
       ++ [ClearRect 0 0 (num_of_Z (cv_width c)) (num_of_Z (cv_height c));
           FillRect (Color POPOVER_COLORS_blueGray) 0 0 1280 700;
           FillText (Color POPOVER_COLORS_orange) "48pt Amatic SC" "center"
             "Happy Halloween" 640 350]
       ++ particle_commands t1 (particle1 f)
       ++ particle_commands t2 (particle2 f)
       ++ particle_commands t3 (particle3 f) |}.

(** The fireworks [_setFireworks] installs for the canvas [canvas]. *)
Definition initial_fireworks (canvas : nat) : Fireworks :=
  {| fw_canvas := canvas;
     particle1 := mkParticle 50 0 1 (0, 0)%Z (Some "rgba(255, 184, 6, %alpha%)");
     particle2 := mkParticle 0 10 1 (0, 0)%Z (Some "rgba(255, 184, 6, %alpha%)");
     particle3 := mkParticle 0 20 1 (0, 0)%Z (Some "rgba(255, 184, 6, %alpha%)") |}.

(** The canvas a costume popover starts on: the size of the board canvas
    [board], nothing drawn yet. *)
Definition costume_canvas (board : Canvas) : Canvas :=
  set_cv_height (cv_height board)
    (set_cv_width (cv_width board) (set_cv_id "costume-popover" new_canvas)).

(** The costume record [_setCostumeDataForCostume] installs on a surface
    [width] wide. *)
Definition costume_record (c : COSTUME_TYPE) (width : Z) : CostumeData :=
  {| costume := fst (fst (costume_content c));
     spriteURL := snd (fst (costume_content c));
     caption := snd (costume_content c);
     imageLocation := ((num_of_Z width / 2 - 51)%float, 60%float);
     originalImageYLocation := 60%float |}.

(** ** More of what holds of every state of a running game *)

(** Every image a canvas was asked to draw is one the engine had loaded. *)
Definition images_loaded (c : Canvas) : Prop :=
  forall url x y, In (DrawImage url x y) (cv_drawn c) -> In url engine_assets.

(** Per canvas: its images were loaded; the popover manager drew nothing on
    the game board; an end-of-game canvas is 1280 by 700. *)
Definition canvas_ok (c : Canvas) : Prop :=
  images_loaded c
  /\ (cv_id c = "game-board" -> cv_drawn c = [])
  /\ (cv_id c = "game-end-popover" -> cv_width c = 1280%Z /\ cv_height c = 700%Z).

(** A particle has a palette colour and a centre on a [W] by [H] surface. *)
Definition particle_ok (W H : Z) (p : Particle) : Prop :=
  (exists c, color p = Some c /\ In c colors)
  /\ (0 <= fst (center p) <= W)%Z
  /\ (0 <= snd (center p) <= H)%Z.

Definition particles_ok (f : Fireworks) : Prop :=
  radius (particle1 f) = 50%float
  /\ lineWidth (particle2 f) = 10%float
  /\ alpha (particle3 f) = 1%float
  /\ particle_ok 1280 700 (particle1 f)
  /\ particle_ok 1280 700 (particle2 f)
  /\ particle_ok 1280 700 (particle3 f).

(** [w'] comes after [w]: the same clock, read at least as often. *)
Definition later (w w' : World) : Prop :=
  clock (host w') = clock (host w)
  /\ (clock_reads (host w) <= clock_reads (host w'))%nat.

(** [lastTime] holds a reading the clock has already given. *)
Definition lastTime_read (w : World) : Prop :=
  exists k, (k < clock_reads (host w))%nat
            /\ lastTime (engine w) = Some (clock (host w) k).

Definition inv (w : World) : Prop :=
  wf w
  /\ Forall canvas_ok (heap (dom w))
  /\ window_ctx (dom w) = Ref (eng_canvas (engine w))
  /\ In (eng_canvas (engine w)) (container (dom w))
  /\ cv_id (deref w (eng_canvas (engine w))) = "game-board"
  /\ Forall (fun h => (h < List.length (heap (dom w)))%nat) (container (dom w))
  /\ (forall h, ctx (pm w) = Ref h -> exists k, cv_id (deref w h) = popover_id k)
  /\ (forall f, fireworks (pm w) = Some f ->
        (fw_canvas f < List.length (heap (dom w)))%nat
        /\ cv_id (deref w (fw_canvas f)) = "game-end-popover"
        /\ particles_ok f)
  /\ (forall d, costumeData (pm w) = CostumeFull d -> In (spriteURL d) engine_assets)
  /\ lastTime_read w.

(** Any number of steps of a running game. *)
Inductive steps : World -> World -> Prop :=
| steps_refl w : steps w w
| steps_step w w1 w2 : steps w w1 -> step w1 w2 -> steps w w2.

(** ** More sample states *)


(** The dwarf popover removed after its first frame: the manager holds no
    popover. *)
Definition dwarf_removed : World := Eval vm_compute in run removePopover dwarf_after_frame.

(** A host whose clock advances 400 ms per reading, and the game it runs:
    started, the end-of-game popover shown, and one frame later, in which
    all three particles restart. *)
Definition slow_host : Host :=
  {| clock := fun n => (1700000000000 + 400 * num_of_Z (Z.of_nat n))%float;
     clock_reads := 0;
     random := fun n => (7919 * (N.of_nat n + 1) + N.of_nat n * N.of_nat n)%N;
     random_draws := 0;
     Math_sin := fun x => 0%float |}.

Definition slow_started : World :=
  Eval vm_compute in run init (run Engine (page slow_host sample_game)).
Definition slow_end_shown : World :=
  Eval vm_compute in run presentGameFinishPopover slow_started.
Definition slow_end_after_frame : World :=
  Eval vm_compute in run main slow_end_shown.

(** The fireworks of that last state. *)
Definition restarted_fireworks : Fireworks :=
  Eval vm_compute in
    match fireworks (pm slow_end_after_frame) with
    | Some f => f
    | None => initial_fireworks 0
    end.

(** The page as the engine's set-up leaves it, before [init]. *)
Definition engine_ready : World :=
  Eval vm_compute in run Engine (page sample_host sample_game).

(** * Properties *)

(** ** The random helper *)

Lemma drawn_in_range_bounds (w : World) (n : nat) (lo hi : Z) :
  (lo <= hi)%Z -> (lo <= drawn_in_range w n lo hi <= hi)%Z.
Proof.
  intros Hle. unfold drawn_in_range.
  assert (H : (0 <= Z.of_N (random (host w) n) mod (hi - lo + 1) < hi - lo + 1)%Z)
    by (apply Z.mod_pos_bound; lia).
  lia.
Qed.

Lemma randomIntegerInRange_eq (lo hi : Z) (w : World) :
  randomIntegerInRange lo hi w
  = Ok (drawn_in_range w (random_draws (host w)) lo hi) (after_draws 1 w).
Proof. reflexivity. Qed.

Lemma array_get_colors (k : Z) :
  (0 <= k <= 2)%Z -> exists c, array_get colors k = Some c /\ In c colors.
Proof.
  intros Hk.
  assert (Hc : k = 0%Z \/ k = 1%Z \/ k = 2%Z) by lia.
  destruct Hc as [-> | [-> | ->]]; cbn; eexists; split; try reflexivity; cbn; auto.
Qed.

(** The restart shared by the three particles: three draws, in the order
    x, y, colour index. *)
Lemma restart_at_random_eq (canvas : nat) (p : Particle) (w : World) :
  let n := random_draws (host w) in
  let cv := deref w canvas in
  restart_at_random canvas p w
  = Ok (mkParticle (radius p) (lineWidth p) (alpha p)
          (drawn_in_range w n 0 (cv_width cv), drawn_in_range w (S n) 0 (cv_height cv))
          (array_get colors (drawn_in_range w (S (S n)) 0 2)))
       (after_draws 3 w).
Proof. reflexivity. Qed.

(** ** The firework particles *)

(** C6: particle 1 grows its stroke width by 100 * (4 * dt) and fades its
    alpha by 4 * dt on every update; when the faded alpha is below 0 the same
    update restarts it with alpha 1 and stroke width 0, a centre drawn as
    integers within the surface and a colour of the three-colour palette;
    otherwise centre and colour stay as they were. *)
Theorem particle1_update_rule (canvas : nat) (dt : float) (p : Particle) (w : World) :
  let grown := (lineWidth p + 100 * (4 * dt))%float in
  let faded := (alpha p - 4 * dt)%float in
  let n := random_draws (host w) in
  let cv := deref w canvas in
  ((faded <? 0)%float = false ->
     particle1_update canvas dt p w
     = Ok (mkParticle (radius p) grown faded (center p) (color p)) w)
  /\
  ((faded <? 0)%float = true ->
     exists x y k c,
       particle1_update canvas dt p w
       = Ok (mkParticle (radius p) 0%float 1%float (x, y) (Some c)) (after_draws 3 w)
       /\ x = drawn_in_range w n 0 (cv_width cv)
       /\ y = drawn_in_range w (S n) 0 (cv_height cv)
       /\ k = drawn_in_range w (S (S n)) 0 2
       /\ array_get colors k = Some c /\ In c colors
       /\ ((0 <= cv_width cv)%Z -> (0 <= x <= cv_width cv)%Z)
       /\ ((0 <= cv_height cv)%Z -> (0 <= y <= cv_height cv)%Z)).
Proof.
  intros grown faded n cv. split; intros Hcmp.
  - unfold particle1_update. cbn. fold faded. rewrite Hcmp. reflexivity.
  - destruct (array_get_colors (drawn_in_range w (S (S n)) 0 2)) as [c [Hc Hin]].
    { apply drawn_in_range_bounds. lia. }
    exists (drawn_in_range w n 0 (cv_width cv)),
           (drawn_in_range w (S n) 0 (cv_height cv)),
           (drawn_in_range w (S (S n)) 0 2), c.
    repeat split; auto; try (apply drawn_in_range_bounds; assumption).
    unfold particle1_update. cbn -[restart_at_random]. fold faded. rewrite Hcmp.
    rewrite restart_at_random_eq. cbn -[drawn_in_range after_draws array_get colors].
    fold n cv. rewrite Hc. reflexivity.
Qed.

(** C7: particle 3 grows its radius by 10 * (20 * dt) and thins its stroke
    width by 3 * (20 * dt) on every update; when the thinned width is below 0
    the same update restarts it with stroke width 15 and radius 0, a new
    random centre and a new palette colour; otherwise centre and colour stay
    as they were. *)
Theorem particle3_update_rule (canvas : nat) (dt : float) (p : Particle) (w : World) :
  let grown := (radius p + 10 * (20 * dt))%float in
  let thinned := (lineWidth p - 3 * (20 * dt))%float in
  let n := random_draws (host w) in
  let cv := deref w canvas in
  ((thinned <? 0)%float = false ->
     particle3_update canvas dt p w
     = Ok (mkParticle grown thinned (alpha p) (center p) (color p)) w)
  /\
  ((thinned <? 0)%float = true ->
     exists x y k c,
       particle3_update canvas dt p w
       = Ok (mkParticle 0%float 15%float (alpha p) (x, y) (Some c)) (after_draws 3 w)
       /\ x = drawn_in_range w n 0 (cv_width cv)
       /\ y = drawn_in_range w (S n) 0 (cv_height cv)
       /\ k = drawn_in_range w (S (S n)) 0 2
       /\ array_get colors k = Some c /\ In c colors
       /\ ((0 <= cv_width cv)%Z -> (0 <= x <= cv_width cv)%Z)
       /\ ((0 <= cv_height cv)%Z -> (0 <= y <= cv_height cv)%Z)).
Proof.
  intros grown thinned n cv. split; intros Hcmp.
  - unfold particle3_update. cbn. fold thinned. rewrite Hcmp. reflexivity.
  - destruct (array_get_colors (drawn_in_range w (S (S n)) 0 2)) as [c [Hc Hin]].
    { apply drawn_in_range_bounds. lia. }
    exists (drawn_in_range w n 0 (cv_width cv)),
           (drawn_in_range w (S n) 0 (cv_height cv)),
           (drawn_in_range w (S (S n)) 0 2), c.
    repeat split; auto; try (apply drawn_in_range_bounds; assumption).
    unfold particle3_update. cbn -[restart_at_random]. fold thinned. rewrite Hcmp.
    rewrite restart_at_random_eq. cbn -[drawn_in_range after_draws array_get colors].
    fold n cv. rewrite Hc. reflexivity.
Qed.

(** On the start screen's canvas (720 x 600), with the sample random source:
    an eighth of a second moves each particle along; half a second restarts
    it. *)
Example particle1_update_grows :
  particle1_update 1 0.125%float particle1_initial started
  = Ok (mkParticle 50 50 0.5 (0, 0)%Z (Some "rgba(255, 184, 6, %alpha%)")) started.
Proof. vm_compute. reflexivity. Qed.

Example particle1_update_restarts :
  particle1_update 1 0.5%float particle1_initial started
  = Ok (mkParticle 50 0 1 (3, 10)%Z (Some "rgba(171, 252, 170, %alpha%)"))
       (after_draws 3 started).
Proof. vm_compute. reflexivity. Qed.

Example particle3_update_grows :
  particle3_update 1 0.125%float particle3_initial started
  = Ok (mkParticle 25 12.5 1 (0, 0)%Z (Some "rgba(255, 184, 6, %alpha%)")) started.
Proof. vm_compute. reflexivity. Qed.

Example particle3_update_restarts :
  particle3_update 1 0.5%float particle3_initial started
  = Ok (mkParticle 0 15 1 (3, 10)%Z (Some "rgba(171, 252, 170, %alpha%)"))
       (after_draws 3 started).
Proof. vm_compute. reflexivity. Qed.

(** ** Lists and handles *)

Lemma update_nth_last {A : Type} (f : A -> A) (l : list A) (c : A) :
  update_nth (List.length l) f (l ++ [c]) = l ++ [f c].
Proof. induction l as [| x t IH]; cbn; [reflexivity | now rewrite IH]. Qed.

Lemma nth_last {A : Type} (l : list A) (c d : A) :
  nth (List.length l) (l ++ [c]) d = c.
Proof. induction l as [| x t IH]; cbn; [reflexivity | exact IH]. Qed.

Lemma update_nth_length {A : Type} (f : A -> A) (l : list A) (n : nat) :
  List.length (update_nth n f l) = List.length l.
Proof.
  revert n. induction l as [| x t IH]; intros [| n]; cbn; try reflexivity.
  now rewrite IH.
Qed.

Lemma nth_update_nth_same {A : Type} (f : A -> A) (l : list A) (n : nat) (d : A) :
  (n < List.length l)%nat -> nth n (update_nth n f l) d = f (nth n l d).
Proof.
  revert n. induction l as [| x t IH]; intros [| n] Hn; cbn in *; try lia.
  - reflexivity.
  - apply IH. lia.
Qed.

Lemma nth_update_nth_other {A : Type} (f : A -> A) (l : list A) (n i : nat) (d : A) :
  i <> n -> nth i (update_nth n f l) d = nth i l d.
Proof.
  revert n i. induction l as [| x t IH]; intros [| n] [| i] Hne; cbn;
    try reflexivity; try congruence.
  apply IH. congruence.
Qed.

(** A projection that the update leaves alone reads the same everywhere. *)
Lemma proj_update_nth {A B : Type} (g : A -> B) (f : A -> A) :
  (forall c, g (f c) = g c) ->
  forall (l : list A) (n i : nat) (d : A),
    g (nth i (update_nth n f l) d) = g (nth i l d).
Proof.
  intros Hg l. induction l as [| x t IH]; intros [| n] [| i] d; cbn;
    try reflexivity; auto.
Qed.

Lemma remove_child_last (h : nat) (l : list nat) :
  ~ In h l -> remove_child h (l ++ [h]) = Some l.
Proof.
  induction l as [| x t IH]; cbn; intros Hn.
  - now rewrite Nat.eqb_refl.
  - destruct (Nat.eqb_spec x h) as [-> | Hne]; [tauto |].
    rewrite IH by tauto. reflexivity.
Qed.

Lemma remove_child_In (h : nat) (l : list nat) :
  In h l -> exists l', remove_child h l = Some l'.
Proof.
  induction l as [| x t IH]; cbn; intros Hin; [tauto |].
  destruct (Nat.eqb_spec x h) as [-> | Hne]; [eauto |].
  destruct IH as [l' ->]; [intuition congruence | eauto].
Qed.

(** ** The popover manager, operation by operation *)

Ltac js_eval :=
  repeat (progress (cbn; rewrite ?update_nth_last, ?nth_last)).

Lemma showGameStartPopover_eq (w : World) :
  showGameStartPopover w
  = Ok tt (set_costumeData CostumeEmpty (attached game_start_canvas w)).
Proof. unfold showGameStartPopover, _addCanvasToDOMWithID. js_eval. reflexivity. Qed.

Lemma presentCostume_eq (c : COSTUME_TYPE) (w : World) (b : nat) :
  window_ctx (dom w) = Ref b ->
  exists cv x,
    cv_id cv = "costume-popover"
    /\ cv_drawn cv = []
    /\ show (CostumeReveal c) w
       = Ok tt (set_costumeData
                  (CostumeFull
                     (mkCostumeData (fst (fst (costume_content c)))
                        (snd (fst (costume_content c))) (snd (costume_content c))
                        (x, 60%float) 60%float))
                  (attached cv w)).
Proof.
  intros Hb.
  destruct c; unfold show, presentDwarfPopover, presentLaserManPopover,
    presentGhostPopover, _addCanvasToDOMWithID, _setCostumeDataForCostume,
    window_canvas, ctx_canvas, this_ctx;
    js_eval; rewrite Hb; js_eval; do 2 eexists; repeat split; reflexivity.
Qed.

Lemma presentGameFinishPopover_eq (w : World) :
  exists cv f,
    cv_id cv = "game-end-popover"
    /\ fw_canvas f = List.length (heap (dom w))
    /\ colours_defined f
    /\ presentGameFinishPopover w = Ok tt (set_fireworks (Some f) (attached cv w)).
Proof.
  unfold presentGameFinishPopover, _addCanvasToDOMWithID, _setFireworks,
    _renderEndOfGamePopover, _renderFireworks, render_particle, on_ctx, ctx_canvas,
    this_ctx.
  js_eval. do 2 eexists. split; [| split; [| split; [| reflexivity]]].
  - reflexivity.
  - reflexivity.
  - repeat split; discriminate.
Qed.

(** Every show operation attaches one fresh surface and makes it the
    manager's, whatever was there before. *)
Lemma show_attaches (k : PopoverKind) (w : World) (b : nat) :
  window_ctx (dom w) = Ref b ->
  exists cv w',
    show k w = Ok tt w'
    /\ cv_id cv = popover_id k
    /\ dom w' = dom (attached cv w)
    /\ ctx (pm w') = Ref (List.length (heap (dom w)))
    /\ host w' = host w /\ game w' = game w /\ engine w' = engine w
    /\ trace w' = trace w
    /\ (forall c, k = CostumeReveal c ->
          exists x, costumeData (pm w')
                    = CostumeFull
                        (mkCostumeData (fst (fst (costume_content c)))
                           (snd (fst (costume_content c))) (snd (costume_content c))
                           (x, 60%float) 60%float))
    /\ (k = GameEnd -> exists f, fireworks (pm w') = Some f /\ colours_defined f).
Proof.
  intros Hb. destruct k as [| c |].
  - exists game_start_canvas. eexists. split; [apply showGameStartPopover_eq |].
    cbn. repeat split; try reflexivity; intros; discriminate.
  - destruct (presentCostume_eq c w b Hb) as (cv & x & Hid & _ & Heq).
    exists cv. eexists. split; [exact Heq |].
    cbn. repeat split; try assumption; try reflexivity.
    + intros c' Hc. inversion Hc; subst. eexists. reflexivity.
    + intros; discriminate.
  - destruct (presentGameFinishPopover_eq w) as (cv & f & Hid & _ & Hcol & Heq).
    exists cv. eexists. split; [exact Heq |].
    cbn. repeat split; try assumption; try reflexivity.
    + intros; discriminate.
    + intros _. eauto.
Qed.

Lemma removePopover_null (w : World) :
  ctx (pm w) = Null -> removePopover w = Ok tt w.
Proof. intros H. unfold removePopover. now rewrite H. Qed.

Lemma removePopover_active (w : World) (h : nat) :
  ctx (pm w) = Ref h -> In h (container (dom w)) ->
  exists l, remove_child h (container (dom w)) = Some l
            /\ removePopover w = Ok tt (set_ctx Null (set_container l w)).
Proof.
  intros Hc Hin. destruct (remove_child_In h _ Hin) as [l Hl].
  exists l. split; [exact Hl |].
  unfold removePopover, this_ctx, container_removeChild. rewrite Hc. cbn.
  rewrite Hc. cbn. rewrite Hl. reflexivity.
Qed.

Lemma removePopover_undefined (w : World) :
  ctx (pm w) = Undefined ->
  removePopover w = Throw (TypeError "Cannot read properties of undefined").
Proof.
  intros Hc. unfold removePopover, this_ctx. rewrite Hc. cbn. now rewrite Hc.
Qed.

Lemma isCostume_eq (w : World) (h : nat) :
  ctx (pm w) = Ref h ->
  _isDisplayingCostumePopover w
  = Ok (String.eqb (cv_id (deref w h)) "costume-popover") w.
Proof.
  intros Hc. unfold _isDisplayingCostumePopover, ctx_canvas, this_ctx.
  rewrite Hc. cbn. rewrite Hc. reflexivity.
Qed.

Lemma isEndOfGame_eq (w : World) (h : nat) :
  ctx (pm w) = Ref h ->
  _isDisplayingEndOfGamePopover w
  = Ok (String.eqb (cv_id (deref w h)) "game-end-popover") w.
Proof.
  intros Hc. unfold _isDisplayingEndOfGamePopover, ctx_canvas, this_ctx.
  rewrite Hc. cbn. rewrite Hc. reflexivity.
Qed.

(** With no surface, [update] and [render] do nothing. *)
Lemma PopoverManager_update_null (dt : float) (w : World) :
  ctx (pm w) = Null -> PopoverManager_update dt w = Ok tt w.
Proof.
  intros Hc. unfold PopoverManager_update, _isDisplayingCostumePopover,
    _isDisplayingEndOfGamePopover. cbn. rewrite Hc. cbn. rewrite Hc. reflexivity.
Qed.

Lemma PopoverManager_render_null (w : World) :
  ctx (pm w) = Null -> PopoverManager_render w = Ok tt w.
Proof.
  intros Hc. unfold PopoverManager_render, _isDisplayingCostumePopover,
    _isDisplayingEndOfGamePopover. cbn. rewrite Hc. cbn. rewrite Hc. reflexivity.
Qed.

(** On a surface that is neither a costume popover nor the end-of-game
    popover, [update] and [render] do nothing. *)
Lemma PopoverManager_update_static (dt : float) (w : World) (h : nat) :
  ctx (pm w) = Ref h ->
  String.eqb (cv_id (deref w h)) "costume-popover" = false ->
  String.eqb (cv_id (deref w h)) "game-end-popover" = false ->
  PopoverManager_update dt w = Ok tt w.
Proof.
  intros Hc H1 H2. unfold PopoverManager_update. cbn -[deref].
  rewrite (isCostume_eq w h Hc), H1. cbn -[deref].
  rewrite (isEndOfGame_eq w h Hc), H2. reflexivity.
Qed.

Lemma PopoverManager_render_static (w : World) (h : nat) :
  ctx (pm w) = Ref h ->
  String.eqb (cv_id (deref w h)) "costume-popover" = false ->
  String.eqb (cv_id (deref w h)) "game-end-popover" = false ->
  PopoverManager_render w = Ok tt w.
Proof.
  intros Hc H1 H2. unfold PopoverManager_render. cbn -[deref].
  rewrite (isCostume_eq w h Hc), H1. cbn -[deref].
  rewrite (isEndOfGame_eq w h Hc), H2. reflexivity.
Qed.

(** The costume popover's [update]: one clock reading, and the image height
    recomputed from the stored base. *)
Lemma PopoverManager_update_costume (dt : float) (w : World) (h : nat) (d : CostumeData) :
  ctx (pm w) = Ref h ->
  cv_id (deref w h) = "costume-popover" ->
  costumeData (pm w) = CostumeFull d ->
  PopoverManager_update dt w
  = Ok tt (set_costumeData
             (CostumeFull
                (set_imageLocation_y
                   (originalImageYLocation d
                    + 8 * Math_sin (host w) (current_time w / 800))%float d))
             (after_clock_read w)).
Proof.
  intros Hc Hid Hd. unfold PopoverManager_update. cbn -[deref].
  rewrite (isCostume_eq w h Hc), Hid. cbn.
  unfold costumeData_update, this_costumeData. cbn. rewrite Hd. reflexivity.
Qed.

(** Names the fields of a world, so that the reads of the code compute. *)
Ltac open_world w :=
  destruct w as [[?hp ?cont ?wctx ?scr] ?hst ?gm ?eng [?c ?cd ?fw] ?tr];
  cbn in *; subst.

(** The costume popover's [render]: the surface is redrawn, the window is
    scrolled to its origin, and the oscillation base becomes a quarter of the
    surface height; nothing else of the costume record changes. *)
Lemma PopoverManager_render_costume (w : World) (h b : nat) (d : CostumeData) :
  ctx (pm w) = Ref h ->
  window_ctx (dom w) = Ref b ->
  cv_id (deref w h) = "costume-popover" ->
  costumeData (pm w) = CostumeFull d ->
  exists hp,
    PopoverManager_render w
    = Ok tt (set_costumeData
               (CostumeFull
                  (set_originalImageYLocation
                     (0.25 * num_of_Z (cv_height (deref w h)))%float d))
               (set_scroll (0, 0)%Z (set_heap hp w)))
    /\ List.length hp = List.length (heap (dom w))
    /\ (forall i, cv_id (nth i hp new_canvas) = cv_id (deref w i))
    /\ (forall i, cv_height (nth i hp new_canvas) = cv_height (deref w i)).
Proof.
  intros Hc Hb Hid Hd. unfold PopoverManager_render. cbn -[deref].
  rewrite (isCostume_eq w h Hc), Hid. cbn.
  unfold _renderCostumePopover, window_canvas, on_ctx, ctx_canvas, this_ctx,
    this_costumeData.
  open_world w. cbn.
  rewrite !(proj_update_nth cv_height) by (intro; reflexivity).
  eexists. split; [reflexivity |]. split; [| split]; intros.
  - now rewrite !update_nth_length.
  - now rewrite !(proj_update_nth cv_id) by (intro; reflexivity).
  - now rewrite !(proj_update_nth cv_height) by (intro; reflexivity).
Qed.

(** The end-of-game popover's [render] redraws its surface and changes
    nothing else. *)
Lemma PopoverManager_render_end (w : World) (h : nat) (f : Fireworks) :
  ctx (pm w) = Ref h ->
  cv_id (deref w h) = "game-end-popover" ->
  fireworks (pm w) = Some f ->
  colours_defined f ->
  exists hp,
    PopoverManager_render w = Ok tt (set_heap hp w)
    /\ List.length hp = List.length (heap (dom w))
    /\ (forall i, cv_id (nth i hp new_canvas) = cv_id (deref w i)).
Proof.
  intros Hc Hid Hf (H1 & H2 & H3). unfold PopoverManager_render. cbn -[deref].
  rewrite (isCostume_eq w h Hc), Hid. cbn -[deref].
  rewrite (isEndOfGame_eq w h Hc), Hid. cbn.
  unfold _renderEndOfGamePopover, _renderFireworks, render_particle, on_ctx,
    ctx_canvas, this_ctx.
  destruct (color (particle1 f)) as [c1 |] eqn:E1; [| congruence].
  destruct (color (particle2 f)) as [c2 |] eqn:E2; [| congruence].
  destruct (color (particle3 f)) as [c3 |] eqn:E3; [| congruence].
  open_world w. cbn. rewrite E1, E2, E3. cbn.
  eexists. split; [reflexivity |]. split; intros.
  - now rewrite !update_nth_length.
  - now rewrite !(proj_update_nth cv_id) by (intro; reflexivity).
Qed.

Lemma restart_at_random_frame (canvas : nat) (p : Particle) (w : World) :
  exists p' w',
    restart_at_random canvas p w = Ok p' w'
    /\ same_but_host w w' /\ color p' <> None.
Proof.
  rewrite restart_at_random_eq. do 2 eexists. split; [reflexivity |]. split.
  - repeat split.
  - cbn -[array_get colors drawn_in_range].
    destruct (array_get_colors (drawn_in_range w (S (S (random_draws (host w)))) 0 2))
      as [c [Hc _]]; [apply drawn_in_range_bounds; lia |].
    rewrite Hc. discriminate.
Qed.

Lemma particle1_update_frame (canvas : nat) (dt : float) (p : Particle) (w : World) :
  color p <> None ->
  exists p' w',
    particle1_update canvas dt p w = Ok p' w'
    /\ same_but_host w w' /\ color p' <> None.
Proof.
  intros Hp. unfold particle1_update. cbn -[restart_at_random].
  destruct (_ <? 0)%float.
  - apply restart_at_random_frame.
  - do 2 eexists. split; [reflexivity |]. split; [repeat split | exact Hp].
Qed.

Lemma particle2_update_frame (canvas : nat) (dt : float) (p : Particle) (w : World) :
  color p <> None ->
  exists p' w',
    particle2_update canvas dt p w = Ok p' w'
    /\ same_but_host w w' /\ color p' <> None.
Proof.
  intros Hp. unfold particle2_update. cbn -[restart_at_random].
  destruct (_ <? 0)%float.
  - apply restart_at_random_frame.
  - do 2 eexists. split; [reflexivity |]. split; [repeat split | exact Hp].
Qed.

Lemma particle3_update_frame (canvas : nat) (dt : float) (p : Particle) (w : World) :
  color p <> None ->
  exists p' w',
    particle3_update canvas dt p w = Ok p' w'
    /\ same_but_host w w' /\ color p' <> None.
Proof.
  intros Hp. unfold particle3_update. cbn -[restart_at_random].
  destruct (_ <? 0)%float.
  - apply restart_at_random_frame.
  - do 2 eexists. split; [reflexivity |]. split; [repeat split | exact Hp].
Qed.

Lemma same_but_host_trans (w1 w2 w3 : World) :
  same_but_host w1 w2 -> same_but_host w2 w3 -> same_but_host w1 w3.
Proof.
  unfold same_but_host. intros (A1 & A2 & A3 & A4 & A5) (B1 & B2 & B3 & B4 & B5).
  repeat split; congruence.
Qed.

(** The end-of-game popover's [update] advances the three particles, in
    their order of creation. *)
Lemma _updateFireworks_frame (dt : float) (w : World) (f : Fireworks) :
  fireworks (pm w) = Some f ->
  colours_defined f ->
  exists f' w1,
    _updateFireworks dt w = Ok tt (set_fireworks (Some f') w1)
    /\ same_but_host w w1
    /\ fw_canvas f' = fw_canvas f /\ colours_defined f'.
Proof.
  intros Hf (H1 & H2 & H3). unfold _updateFireworks, bind, gets. rewrite Hf.
  destruct (particle1_update_frame (fw_canvas f) dt (particle1 f) w H1)
    as (p1 & w1 & E1 & F1 & C1).
  destruct (particle2_update_frame (fw_canvas f) dt (particle2 f) w1 H2)
    as (p2 & w2 & E2 & F2 & C2).
  destruct (particle3_update_frame (fw_canvas f) dt (particle3 f) w2 H3)
    as (p3 & w3 & E3 & F3 & C3).
  rewrite E1, E2, E3. unfold modify.
  exists (mkFireworks (fw_canvas f) p1 p2 p3), w3.
  split; [reflexivity |]. split; [| split; [reflexivity | repeat split; assumption]].
  eapply same_but_host_trans; [| exact F3].
  eapply same_but_host_trans; eassumption.
Qed.

Lemma PopoverManager_update_end (dt : float) (w : World) (h : nat) (f : Fireworks) :
  ctx (pm w) = Ref h ->
  cv_id (deref w h) = "game-end-popover" ->
  fireworks (pm w) = Some f ->
  colours_defined f ->
  exists f' w1,
    PopoverManager_update dt w = Ok tt (set_fireworks (Some f') w1)
    /\ same_but_host w w1
    /\ fw_canvas f' = fw_canvas f /\ colours_defined f'.
Proof.
  intros Hc Hid Hf Hcol. unfold PopoverManager_update. cbn -[deref _updateFireworks].
  rewrite (isCostume_eq w h Hc), Hid. cbn -[deref _updateFireworks].
  rewrite (isEndOfGame_eq w h Hc), Hid. cbn -[_updateFireworks].
  now apply _updateFireworks_frame.
Qed.

(** ** The invariant *)

Lemma wf_preserved (w w' : World) :
  wf w ->
  window_ctx (dom w') = window_ctx (dom w) ->
  eng_canvas (engine w') = eng_canvas (engine w) ->
  List.length (heap (dom w')) = List.length (heap (dom w)) ->
  ctx (pm w') = ctx (pm w) ->
  container (dom w') = container (dom w) ->
  (forall i, cv_id (deref w' i) = cv_id (deref w i)) ->
  ((exists d, costumeData (pm w) = CostumeFull d) ->
   exists d, costumeData (pm w') = CostumeFull d) ->
  ((exists f, fireworks (pm w) = Some f /\ colours_defined f) ->
   exists f, fireworks (pm w') = Some f /\ colours_defined f) ->
  wf w'.
Proof.
  intros (Hb & He & Hs) Ewin Eeng Elen Ectx Econt Eid Hcd Hfw.
  unfold wf. rewrite Ewin, Eeng, Elen, Ectx, Econt.
  split; [exact Hb |]. split; [exact He |].
  destruct (ctx (pm w)) as [| | h]; try exact Hs.
  destruct Hs as (Hlt & Hin & Hc & Hf). rewrite Eid.
  split; [exact Hlt |]. split; [exact Hin |]. split; intros Hid; auto.
Qed.

Lemma wf_attached (k : PopoverKind) (w w' : World) (cv : Canvas) :
  (exists b, window_ctx (dom w) = Ref b) ->
  (eng_canvas (engine w) < List.length (heap (dom w)))%nat ->
  cv_id cv = popover_id k ->
  dom w' = dom (attached cv w) ->
  ctx (pm w') = Ref (List.length (heap (dom w))) ->
  engine w' = engine w ->
  (forall c, k = CostumeReveal c -> exists d, costumeData (pm w') = CostumeFull d) ->
  (k = GameEnd -> exists f, fireworks (pm w') = Some f /\ colours_defined f) ->
  wf w'.
Proof.
  intros Hb He Hid Hdom Hctx Heng Hcd Hfw.
  unfold wf, deref. rewrite Hdom, Hctx, Heng. cbn. rewrite nth_last, Hid.
  split; [exact Hb |]. split; [rewrite length_app; cbn; lia |].
  split; [rewrite length_app; cbn; lia |].
  split; [apply in_or_app; right; left; reflexivity |].
  split; intros Hk.
  - destruct k as [| c |]; try discriminate. eauto.
  - destruct k; try discriminate. auto.
Qed.

Lemma show_ok (k : PopoverKind) (w : World) :
  wf w -> exists w', show k w = Ok tt w' /\ wf w'.
Proof.
  intros Hwf. destruct (Hwf) as ((b & Hb) & He & _).
  destruct (show_attaches k w b Hb)
    as (cv & w' & Hs & Hid & Hdom & Hctx & _ & _ & Heng & _ & Hcd & Hfw).
  exists w'. split; [exact Hs |].
  apply (wf_attached k w w' cv); eauto.
  intros c Hk. destruct (Hcd c Hk) as [x Hx]. eauto.
Qed.

Lemma removePopover_ok (w : World) :
  wf w -> exists w', removePopover w = Ok tt w' /\ wf w' /\ ctx (pm w') = Null.
Proof.
  intros Hwf. destruct (Hwf) as (Hb & He & Hs).
  destruct (ctx (pm w)) as [| | h] eqn:Hc; [tauto | |].
  - exists w. rewrite removePopover_null by exact Hc. auto.
  - destruct Hs as (_ & Hin & _).
    destruct (removePopover_active w h Hc Hin) as (l & _ & Hr).
    eexists. split; [exact Hr |]. split; [| reflexivity].
    unfold wf. cbn. auto.
Qed.

Lemma PopoverManager_update_ok (dt : float) (w : World) :
  wf w ->
  exists w',
    PopoverManager_update dt w = Ok tt w' /\ wf w'
    /\ dom w' = dom w /\ game w' = game w /\ engine w' = engine w
    /\ trace w' = trace w /\ ctx (pm w') = ctx (pm w).
Proof.
  intros Hwf. destruct (Hwf) as (Hb & He & Hs).
  destruct (ctx (pm w)) as [| | h] eqn:Hc; [tauto | |].
  - exists w. rewrite PopoverManager_update_null by exact Hc. auto 10.
  - destruct Hs as (_ & Hin & Hcos & Hend).
    destruct (String.eqb_spec (cv_id (deref w h)) "costume-popover") as [Hid | Hne].
    + destruct (Hcos Hid) as [d Hd].
      rewrite (PopoverManager_update_costume dt w h d Hc Hid Hd).
      eexists. split; [reflexivity |].
      split; [| cbn; auto 10].
      apply (wf_preserved w); auto; cbn; eauto.
    + destruct (String.eqb_spec (cv_id (deref w h)) "game-end-popover") as [Hid | Hne'].
      * destruct (Hend Hid) as (f & Hf & Hcol).
        destruct (PopoverManager_update_end dt w h f Hc Hid Hf Hcol)
          as (f' & w1 & Hu & (E1 & E2 & E3 & E4 & E5) & _ & Hcol').
        eexists. split; [exact Hu |].
        split; [| cbn; rewrite E5; auto 10].
        apply (wf_preserved w); auto; cbn; try congruence.
        -- rewrite E5. auto.
        -- eauto.
      * exists w. rewrite (PopoverManager_update_static dt w h Hc).
        -- auto 10.
        -- now apply String.eqb_neq.
        -- now apply String.eqb_neq.
Qed.

Lemma PopoverManager_render_ok (w : World) :
  wf w ->
  exists w',
    PopoverManager_render w = Ok tt w' /\ wf w'
    /\ game w' = game w /\ engine w' = engine w /\ trace w' = trace w
    /\ host w' = host w /\ ctx (pm w') = ctx (pm w)
    /\ container (dom w') = container (dom w)
    /\ fireworks (pm w') = fireworks (pm w).
Proof.
  intros Hwf. destruct (Hwf) as (Hb & He & Hs).
  destruct (ctx (pm w)) as [| | h] eqn:Hc; [tauto | |].
  - exists w. rewrite PopoverManager_render_null by exact Hc. auto 10.
  - destruct Hs as (_ & Hin & Hcos & Hend). destruct Hb as [b Hb].
    destruct (String.eqb_spec (cv_id (deref w h)) "costume-popover") as [Hid | Hne].
    + destruct (Hcos Hid) as [d Hd].
      destruct (PopoverManager_render_costume w h b d Hc Hb Hid Hd)
        as (hp & Hr & Hlen & Hids & _).
      eexists. split; [exact Hr |].
      split; [| cbn; auto 10].
      apply (wf_preserved w); auto; cbn; eauto.
    + destruct (String.eqb_spec (cv_id (deref w h)) "game-end-popover") as [Hid | Hne'].
      * destruct (Hend Hid) as (f & Hf & Hcol).
        destruct (PopoverManager_render_end w h f Hc Hid Hf Hcol)
          as (hp & Hr & Hlen & Hids).
        eexists. split; [exact Hr |].
        split; [| cbn; auto 10].
        apply (wf_preserved w); auto.
      * exists w. rewrite (PopoverManager_render_static w h Hc).
        -- auto 10.
        -- now apply String.eqb_neq.
        -- now apply String.eqb_neq.
Qed.

(** ** The engine, function by function *)

Ltac list_norm :=
  repeat (progress (rewrite <- ?app_assoc, <- ?app_comm_cons; cbn [app])).

Lemma logs_nil (w : World) : logs [] w = w.
Proof. destruct w. cbn. now rewrite app_nil_r. Qed.

Lemma logs_log (e : Event) (es : list Event) (w : World) :
  logs es (log e w) = logs (e :: es) w.
Proof. cbn. now rewrite <- app_assoc. Qed.

Lemma logs_logs (es1 es2 : list Event) (w : World) :
  logs es2 (logs es1 w) = logs (es1 ++ es2) w.
Proof. cbn. now rewrite <- app_assoc. Qed.

(** A [forEach] whose body only calls a collaborator *)
Lemma forEach_log {A : Type} (f : A -> Event) (l : list A) (w : World) :
  forEach l (fun x => modify (log (f x))) w = Ok tt (logs (map f l) w).
Proof.
  revert w. induction l as [| x t IH]; intros w.
  - cbn [forEach map ret]. now rewrite logs_nil.
  - cbn [forEach map]. unfold bind at 1. unfold modify at 1.
    rewrite IH, logs_log. reflexivity.
Qed.

Lemma updateCanvasDimensions_eq (w : World) :
  updateCanvasDimensions w
  = Ok tt (logs [CanvasWidth (101 * numCols (currentLevelMap (game w)));
                 CanvasHeight (101 * numRows (currentLevelMap (game w)))]
             (set_heap (resized (game w) (heap (dom w)) (eng_canvas (engine w))) w)).
Proof.
  unfold updateCanvasDimensions, resized. cbn. now rewrite <- app_assoc.
Qed.

Lemma updateEntities_eq (dt : float) (w : World) :
  updateEntities dt w
  = Ok tt (logs (map (fun e => EnemyUpdate e dt) (allEnemies (game w))
                 ++ [player_update_step (game w)]
                 ++ map (fun l => LaserUpdate l dt) (laserObstacles (game w))) w).
Proof.
  unfold updateEntities, player_update_step, bind, gets.
  rewrite forEach_log.
  destruct (player (game (logs _ w))) as [p |] eqn:Hp; cbn in Hp; rewrite Hp;
    cbn -[forEach logs]; rewrite forEach_log; cbn; rewrite <- !app_assoc;
    reflexivity.
Qed.

Lemma renderEntities_eq (w : World) :
  renderEntities w
  = Ok tt (logs (map EnemyRender (allEnemies (game w)) ++ [player_render_step (game w)]) w).
Proof.
  unfold renderEntities, player_render_step, bind, gets.
  rewrite forEach_log.
  destruct (player (game (logs _ w))) as [p |] eqn:Hp; cbn in Hp; rewrite Hp;
    cbn; rewrite <- !app_assoc; reflexivity.
Qed.

(** [update]: everything up to the popover's own update is a fixed sequence
    of steps; the collision check follows the popover. *)
Lemma update_eq (dt : float) (w : World) :
  update dt w
  = match PopoverManager_update dt
            (logs ([CanvasWidth (101 * numCols (currentLevelMap (game w)));
                    CanvasHeight (101 * numRows (currentLevelMap (game w)))]
                   ++ map (fun e => EnemyUpdate e dt) (allEnemies (game w))
                   ++ [player_update_step (game w)]
                   ++ map (fun l => LaserUpdate l dt) (laserObstacles (game w))
                   ++ [UpdateCostumes dt; AnimationQueueUpdate dt; PopoverUpdate dt])
               (set_heap (resized (game w) (heap (dom w)) (eng_canvas (engine w))) w))
    with
    | Ok _ w' => Ok tt (log CheckEnemyCollisions w')
    | Throw e => Throw e
    end.
Proof.
  unfold update, updateCollectibles, updateAnimations, updatePopover, checkCollisions.
  unfold bind at 1. rewrite updateCanvasDimensions_eq.
  unfold bind at 1. rewrite updateEntities_eq.
  cbn -[PopoverManager_update resized]. rewrite <- !app_assoc. reflexivity.
Qed.

Lemma render_eq (w : World) :
  render w = PopoverManager_render (logs (render_steps (game w)) w).
Proof.
  unfold render, renderBoard, renderAnimations, renderPopover, render_steps.
  unfold bind at 1. unfold modify at 1. unfold bind at 1. unfold modify at 1.
  unfold bind at 1. rewrite renderEntities_eq.
  cbn -[PopoverManager_render]. rewrite <- !app_assoc. reflexivity.
Qed.

Lemma wf_logs (es : list Event) (w : World) : wf w -> wf (logs es w).
Proof. intros H. apply (wf_preserved w); auto. Qed.

Lemma wf_resized (w : World) (es : list Event) :
  wf w ->
  wf (logs es (set_heap (resized (game w) (heap (dom w)) (eng_canvas (engine w))) w)).
Proof.
  intros H. apply (wf_preserved w); auto; cbn; unfold resized.
  - now rewrite !update_nth_length.
  - intros i. now rewrite !(proj_update_nth cv_id) by (intro; reflexivity).
Qed.

Lemma update_ok (dt : float) (w : World) :
  wf w ->
  exists w',
    update dt w = Ok tt w' /\ wf w'
    /\ trace w' = trace w ++ update_steps dt (game w)
    /\ heap (dom w') = resized (game w) (heap (dom w)) (eng_canvas (engine w))
    /\ container (dom w') = container (dom w)
    /\ game w' = game w /\ engine w' = engine w
    /\ ctx (pm w') = ctx (pm w).
Proof.
  intros Hwf. rewrite update_eq.
  match goal with |- context [PopoverManager_update dt ?w1] =>
    destruct (PopoverManager_update_ok dt w1 (wf_resized w _ Hwf))
      as (w2 & Hu & Hwf2 & Hdom & Hgame & Heng & Htr & Hctx)
  end.
  rewrite Hu. eexists. split; [reflexivity |].
  split; [now apply (wf_logs [CheckEnemyCollisions]) |].
  cbn -[resized Z.mul] in Hdom, Hgame, Heng, Htr, Hctx.
  cbn -[resized Z.mul]. rewrite Htr, Hdom, Hgame, Heng, Hctx.
  unfold update_steps. list_norm.
  repeat split; reflexivity.
Qed.

Lemma render_ok (w : World) :
  wf w ->
  exists w',
    render w = Ok tt w' /\ wf w'
    /\ trace w' = trace w ++ render_steps (game w)
    /\ container (dom w') = container (dom w)
    /\ game w' = game w /\ engine w' = engine w /\ host w' = host w
    /\ ctx (pm w') = ctx (pm w)
    /\ fireworks (pm w') = fireworks (pm w).
Proof.
  intros Hwf. rewrite render_eq.
  destruct (PopoverManager_render_ok _ (wf_logs (render_steps (game w)) w Hwf))
    as (w2 & Hr & Hwf2 & Hgame & Heng & Htr & Hhost & Hctx & Hcont & Hfw).
  exists w2. split; [exact Hr |]. split; [exact Hwf2 |].
  cbn in Htr, Hgame, Heng, Hhost, Hctx, Hcont, Hfw.
  repeat split; assumption.
Qed.

Lemma wf_after_clock_read (w : World) : wf w -> wf (after_clock_read w).
Proof. intros H. apply (wf_preserved w); auto. Qed.

(** The loop body: the clock is read, then [update], then [render], then
    [lastTime] is assigned and the next frame requested. *)
Lemma main_eq (w : World) :
  main w
  = match update (frame_dt w) (after_clock_read w) with
    | Ok _ w1 =>
        match render w1 with
        | Ok _ w2 =>
            Ok tt (log RequestAnimationFrame (set_lastTime (Some (current_time w)) w2))
        | Throw e => Throw e
        end
    | Throw e => Throw e
    end.
Proof.
  unfold main, frame_dt, current_time. cbn -[update render].
  destruct (update _ _) as [[] w1 | e]; [| reflexivity].
  destruct (render w1) as [[] w2 | e]; reflexivity.
Qed.


Lemma Engine_page_eq (h : Host) (g : Game) :
  Engine (page h g)
  = Ok tt
      {| dom := {| heap := [set_cv_id "game-board"
                              (set_cv_height (101 * numRows (boardDimensions g))
                                 (set_cv_width (101 * numCols (boardDimensions g))
                                    new_canvas))];
                   container := [0%nat]; window_ctx := Ref 0; scroll := (0, 0)%Z |};
         host := h; game := g;
         engine := {| eng_canvas := 0; lastTime := None |};
         pm := PopoverManager_new;
         trace := [ResourcesLoad engine_assets; ResourcesOnReady] |}.
Proof. reflexivity. Qed.

Lemma init_eq (w : World) :
  init w
  = main (set_costumeData CostumeEmpty
            (attached game_start_canvas
               (set_currentLevel 1
                  (set_lastTime (Some (current_time w)) (after_clock_read w))))).
Proof.
  unfold init, reset. cbn -[showGameStartPopover main].
  rewrite showGameStartPopover_eq. reflexivity.
Qed.





(** ** Sample states are states of a running game *)

Lemma started_reachable : reachable started.
Proof.
  apply (reach_init sample_host sample_game sample_game
           (run Engine (page sample_host sample_game))); vm_compute; reflexivity.
Qed.


Lemma dwarf_shown_reachable : reachable dwarf_shown.
Proof.
  eapply reach_step; [exact started_reachable |].
  apply (step_show (CostumeReveal dwarf)). vm_compute. reflexivity.
Qed.

Lemma dwarf_after_frame_reachable : reachable dwarf_after_frame.
Proof.
  eapply reach_step; [exact dwarf_shown_reachable |].
  apply step_frame. vm_compute. reflexivity.
Qed.

(** ** The frame scheduler *)








(** ** The popover manager *)




(** C8: on the manager as constructed, before any popover was shown, no
    popover is up and yet [removePopover] throws: the constructor leaves
    [this.ctx] undefined, which the guard [this.ctx === null] lets through. *)
Theorem removePopover_on_new_manager_throws (h : Host) (g : Game) :
  pm (page h g) = PopoverManager_new
  /\ surface (page h g) = None
  /\ removePopover (page h g)
     = Throw (TypeError "Cannot read properties of undefined").
Proof. repeat split. Qed.

(** Once a popover was shown or removed, [removePopover] is total and
    idempotent. *)
Lemma removePopover_idempotent (w : World) :
  wf w ->
  exists w',
    removePopover w = Ok tt w'
    /\ surface w' = None
    /\ (surface w = None -> w' = w)
    /\ (forall h, surface w = Some h ->
          exists l, remove_child h (container (dom w)) = Some l
                    /\ container (dom w') = l)
    /\ removePopover w' = Ok tt w'.
Proof.
  intros Hwf. destruct (Hwf) as (_ & _ & Hs). unfold surface.
  destruct (ctx (pm w)) as [| | h] eqn:Hc; [tauto | |].
  - exists w. rewrite removePopover_null by exact Hc. rewrite Hc.
    repeat split; auto. intros; discriminate.
  - destruct Hs as (_ & Hin & _).
    destruct (removePopover_active w h Hc Hin) as (l & Hl & Hr).
    eexists. split; [exact Hr |]. cbn.
    split; [reflexivity |]. split; [intros; discriminate |].
    split; [| reflexivity].
    intros h' Hh. injection Hh as <-. eauto.
Qed.

(** C9: [showGameStartPopover] draws the start screen once; from then on
    [update(dt)] changes nothing for any dt, and neither does [render()], so
    any number of updates followed by a render leaves exactly the surface
    that was drawn at show time. *)
Theorem game_start_popover_is_static (w : World) (dts : list float) :
  let w1 := set_costumeData CostumeEmpty (attached game_start_canvas w) in
  let h := List.length (heap (dom w)) in
  showGameStartPopover w = Ok tt w1
  /\ surface w1 = Some h
  /\ deref w1 h = game_start_canvas
  /\ (forall dt, PopoverManager_update dt w1 = Ok tt w1)
  /\ PopoverManager_render w1 = Ok tt w1
  /\ (forEach dts PopoverManager_update ;; PopoverManager_render) w1 = Ok tt w1.
Proof.
  intros w1 h.
  assert (Hc : ctx (pm w1) = Ref h) by reflexivity.
  assert (Hd : deref w1 h = game_start_canvas) by (cbn; apply nth_last).
  assert (Hu : forall dt, PopoverManager_update dt w1 = Ok tt w1).
  { intros dt. apply (PopoverManager_update_static dt w1 h Hc); now rewrite Hd. }
  assert (Hr : PopoverManager_render w1 = Ok tt w1).
  { apply (PopoverManager_render_static w1 h Hc); now rewrite Hd. }
  split; [apply showGameStartPopover_eq |].
  split; [reflexivity |]. split; [exact Hd |]. split; [exact Hu |].
  split; [exact Hr |].
  unfold bind.
  assert (Hf : forEach dts PopoverManager_update w1 = Ok tt w1).
  { induction dts as [| dt t IH]; [reflexivity |].
    cbn [forEach]. unfold bind. now rewrite Hu. }
  now rewrite Hf.
Qed.

(** C5, as amended: while a costume popover is up, every [update] sets the
    image height to y = baseY + 8 * sin(t / 800), where t is the reading of
    the wall clock at that update (not the dt it was passed) and baseY is
    the base the costume record holds at that moment, which is 60 when the
    popover has just been shown; y is a function of baseY and t alone. *)
Theorem costume_update_oscillates (w : World) (h : nat) (d : CostumeData) (dt : float) :
  ctx (pm w) = Ref h ->
  cv_id (deref w h) = "costume-popover" ->
  costumeData (pm w) = CostumeFull d ->
  let t := current_time w in
  let y := (originalImageYLocation d + 8 * Math_sin (host w) (t / 800))%float in
  exists w',
    PopoverManager_update dt w = Ok tt w'
    /\ costumeData (pm w')
       = CostumeFull
           (mkCostumeData (costume d) (spriteURL d) (caption d)
              (fst (imageLocation d), y) (originalImageYLocation d))
    /\ current_time w' = clock (host w) (S (clock_reads (host w)))
    /\ (forall (v : World) (hv : nat) (dv : CostumeData) (dtv : float),
          ctx (pm v) = Ref hv ->
          cv_id (deref v hv) = "costume-popover" ->
          costumeData (pm v) = CostumeFull dv ->
          originalImageYLocation dv = originalImageYLocation d ->
          current_time v = t ->
          Math_sin (host v) = Math_sin (host w) ->
          exists v' dv',
            PopoverManager_update dtv v = Ok tt v'
            /\ costumeData (pm v') = CostumeFull dv'
            /\ snd (imageLocation dv') = y)
    /\ (forall (c : COSTUME_TYPE) (w0 : World) (b : nat),
          window_ctx (dom w0) = Ref b ->
          exists w1 d1,
            show (CostumeReveal c) w0 = Ok tt w1
            /\ costumeData (pm w1) = CostumeFull d1
            /\ originalImageYLocation d1 = 60%float
            /\ snd (imageLocation d1) = 60%float).
Proof.
  intros Hc Hid Hd t y.
  eexists. split; [apply (PopoverManager_update_costume dt w h d Hc Hid Hd) |].
  split; [reflexivity |]. split; [reflexivity |]. split.
  - intros v hv dv dtv Hcv Hidv Hdv Hbase Ht Hsin.
    do 2 eexists.
    split; [apply (PopoverManager_update_costume dtv v hv dv Hcv Hidv Hdv) |].
    split; [reflexivity |].
    cbn [set_imageLocation_y imageLocation snd]. unfold y. now rewrite Hbase, Ht, Hsin.
  - intros c w0 b Hb.
    destruct (show_attaches (CostumeReveal c) w0 b Hb)
      as (cv & w1 & Hs & _ & _ & _ & _ & _ & _ & _ & Hcd & _).
    destruct (Hcd c eq_refl) as [x Hx].
    exists w1. eexists. split; [exact Hs |]. split; [exact Hx |].
    split; reflexivity.
Qed.

(** The first update of the dwarf popover, with the sample host whose sine is 0. *)
Lemma costume_update_oscillates_witness :
  exists w',
    PopoverManager_update 0.016%float dwarf_shown = Ok tt w'
    /\ costumeData (pm w')
       = CostumeFull
           (mkCostumeData "DWARF" "images/dwarf-red.png"
              "Rocks were meant for smashing." (201.5%float, 60%float) 60%float)
    /\ current_time w' = clock (host dwarf_shown) 3
    /\ (forall (v : World) (hv : nat) (dv : CostumeData) (dtv : float),
          ctx (pm v) = Ref hv ->
          cv_id (deref v hv) = "costume-popover" ->
          costumeData (pm v) = CostumeFull dv ->
          originalImageYLocation dv = 60%float ->
          current_time v = 1700000000032%float ->
          Math_sin (host v) = Math_sin (host dwarf_shown) ->
          exists v' dv',
            PopoverManager_update dtv v = Ok tt v'
            /\ costumeData (pm v') = CostumeFull dv'
            /\ snd (imageLocation dv') = 60%float)
    /\ (forall (c : COSTUME_TYPE) (w0 : World) (b : nat),
          window_ctx (dom w0) = Ref b ->
          exists w1 d1,
            show (CostumeReveal c) w0 = Ok tt w1
            /\ costumeData (pm w1) = CostumeFull d1
            /\ originalImageYLocation d1 = 60%float
            /\ snd (imageLocation d1) = 60%float).
Proof.
  exact (costume_update_oscillates dwarf_shown 2
           (mkCostumeData "DWARF" "images/dwarf-red.png"
              "Rocks were meant for smashing." (201.5%float, 60%float) 60%float)
           0.016%float eq_refl eq_refl eq_refl).
Defined.

(** C5, as stated, fails: one frame after the dwarf popover was shown on a
    surface 606 high, the base is 151.5, and the next [update] puts the image
    at 151.5 + 8 * sin(t / 800), which is not 60 + 8 * sin(t / 800). *)
Lemma costume_base_is_not_always_60 :
  reachable dwarf_after_frame
  /\ exists h d w' d',
       ctx (pm dwarf_after_frame) = Ref h
       /\ cv_id (deref dwarf_after_frame h) = "costume-popover"
       /\ costumeData (pm dwarf_after_frame) = CostumeFull d
       /\ originalImageYLocation d = 151.5%float
       /\ PopoverManager_update 0.016%float dwarf_after_frame = Ok tt w'
       /\ costumeData (pm w') = CostumeFull d'
       /\ snd (imageLocation d') = 151.5%float
       /\ snd (imageLocation d')
          <> (60 + 8 * Math_sin (host dwarf_after_frame)
                         (current_time dwarf_after_frame / 800))%float.
Proof.
  split; [exact dwarf_after_frame_reachable |].
  exists 2. do 3 eexists.
  split; [reflexivity |]. split; [reflexivity |]. split; [reflexivity |].
  split; [reflexivity |]. split; [vm_compute; reflexivity |].
  split; [reflexivity |]. split; [reflexivity |].
  intros H. apply (f_equal (fun z => PrimFloat.ltb 100 z)) in H.
  vm_compute in H. discriminate.
Qed.

(** C10: rendering a costume popover writes to the costume record: every
    [render] stores 0.25 * surface height as the oscillation base, whatever
    the base was (60 after the show), and leaves the costume name, the
    caption, the sprite and the image location as they were; the surface
    keeps its height, and every later [update] oscillates around that base. *)
Theorem costume_render_overwrites_base (w : World) (h b : nat) (d : CostumeData) :
  ctx (pm w) = Ref h ->
  window_ctx (dom w) = Ref b ->
  cv_id (deref w h) = "costume-popover" ->
  costumeData (pm w) = CostumeFull d ->
  let base := (0.25 * num_of_Z (cv_height (deref w h)))%float in
  exists w1,
    PopoverManager_render w = Ok tt w1
    /\ costumeData (pm w1)
       = CostumeFull
           (mkCostumeData (costume d) (spriteURL d) (caption d) (imageLocation d) base)
    /\ ctx (pm w1) = Ref h
    /\ cv_id (deref w1 h) = "costume-popover"
    /\ cv_height (deref w1 h) = cv_height (deref w h)
    /\ host w1 = host w
    /\ forall dt,
         exists w2,
           PopoverManager_update dt w1 = Ok tt w2
           /\ costumeData (pm w2)
              = CostumeFull
                  (mkCostumeData (costume d) (spriteURL d) (caption d)
                     (fst (imageLocation d),
                      (base + 8 * Math_sin (host w) (current_time w / 800))%float)
                     base).
Proof.
  intros Hc Hb Hid Hd base.
  destruct (PopoverManager_render_costume w h b d Hc Hb Hid Hd)
    as (hp & Hr & _ & Hids & Hhs).
  eexists. split; [exact Hr |].
  split; [reflexivity |]. split; [exact Hc |].
  split; [cbn; rewrite Hids; exact Hid |].
  split; [cbn; now rewrite Hhs |].
  split; [reflexivity |].
  intros dt. eexists. split.
  - eapply PopoverManager_update_costume.
    + exact Hc.
    + cbn. rewrite Hids. exact Hid.
    + reflexivity.
  - reflexivity.
Qed.

(** The first render of the dwarf popover, on a surface 606 high. *)
Lemma costume_render_overwrites_base_witness :
  exists w1,
    PopoverManager_render dwarf_shown = Ok tt w1
    /\ costumeData (pm w1)
       = CostumeFull
           (mkCostumeData "DWARF" "images/dwarf-red.png"
              "Rocks were meant for smashing." (201.5%float, 60%float) 151.5%float)
    /\ ctx (pm w1) = Ref 2
    /\ cv_id (deref w1 2) = "costume-popover"
    /\ cv_height (deref w1 2) = 606%Z
    /\ host w1 = host dwarf_shown
    /\ forall dt,
         exists w2,
           PopoverManager_update dt w1 = Ok tt w2
           /\ costumeData (pm w2)
              = CostumeFull
                  (mkCostumeData "DWARF" "images/dwarf-red.png"
                     "Rocks were meant for smashing."
                     (201.5%float, 151.5%float) 151.5%float).
Proof.
  exact (costume_render_overwrites_base dwarf_shown 2 0
           (mkCostumeData "DWARF" "images/dwarf-red.png"
              "Rocks were meant for smashing." (201.5%float, 60%float) 60%float)
           eq_refl eq_refl eq_refl eq_refl).
Defined.

(** * More of the code *)

(** ** The renderers, as functions of the surface *)

Lemma update_nth_compose {A : Type} (f g : A -> A) (l : list A) (n : nat) :
  update_nth n g (update_nth n f l) = update_nth n (fun c => g (f c)) l.
Proof.
  revert n. induction l as [| x t IH]; intros [| n]; cbn; try reflexivity.
  now rewrite IH.
Qed.

Lemma update_nth_ext_at {A : Type} (f g : A -> A) (l : list A) (n : nat) (d : A) :
  f (nth n l d) = g (nth n l d) -> update_nth n f l = update_nth n g l.
Proof.
  revert n. induction l as [| x t IH]; intros [| n] H; cbn in *; try reflexivity.
  - now rewrite H.
  - now rewrite (IH n H).
Qed.

(** Unfolds the drawing calls on a canvas whose fields are named. *)
Ltac canvas_eval :=
  cbv beta iota zeta delta
    [costume_paint end_paint particle_commands drawImage fillText fillRect
     clearRect beginPath arc stroke draw set_cv_id set_cv_width set_cv_height
     set_cv_styleTop set_cv_font set_cv_textAlign set_cv_fillStyle
     set_cv_strokeStyle set_cv_lineWidth cv_id cv_width cv_height cv_styleTop
     cv_font cv_textAlign cv_fillStyle cv_strokeStyle cv_lineWidth cv_drawn];
  list_norm.

Lemma PopoverManager_render_costume_eq (w : World) (h b : nat) (d : CostumeData) :
  ctx (pm w) = Ref h ->
  window_ctx (dom w) = Ref b ->
  cv_id (deref w h) = "costume-popover" ->
  costumeData (pm w) = CostumeFull d ->
  PopoverManager_render w
  = Ok tt (set_costumeData
             (CostumeFull
                (set_originalImageYLocation
                   (0.25 * num_of_Z (cv_height (deref w h)))%float d))
             (set_scroll (0, 0)%Z
                (set_heap (update_nth h (costume_paint (cv_height (deref w b)) d)
                             (heap (dom w))) w))).
Proof.
  intros Hc Hb Hid Hd. unfold PopoverManager_render. cbn -[deref].
  rewrite (isCostume_eq w h Hc), Hid. cbn.
  unfold _renderCostumePopover, window_canvas, on_ctx, ctx_canvas, this_ctx,
    this_costumeData.
  open_world w. cbn.
  rewrite !(proj_update_nth cv_height) by (intro; reflexivity).
  rewrite !(proj_update_nth cv_width) by (intro; reflexivity).
  rewrite !update_nth_compose.
  match goal with |- context [update_nth h ?F hp] =>
    rewrite (update_nth_ext_at F (costume_paint (cv_height (nth b hp new_canvas)) d)
               hp h new_canvas)
  end; [reflexivity |].
  destruct (nth h hp new_canvas). canvas_eval. reflexivity.
Qed.

Lemma PopoverManager_render_end_eq
    (w : World) (h : nat) (f : Fireworks) (t1 t2 t3 : string) :
  ctx (pm w) = Ref h ->
  (h < List.length (heap (dom w)))%nat ->
  cv_id (deref w h) = "game-end-popover" ->
  fireworks (pm w) = Some f ->
  color (particle1 f) = Some t1 ->
  color (particle2 f) = Some t2 ->
  color (particle3 f) = Some t3 ->
  PopoverManager_render w
  = Ok tt (set_heap (update_nth h (end_paint t1 t2 t3 f) (heap (dom w))) w).
Proof.
  intros Hc Hlt Hid Hf E1 E2 E3. unfold PopoverManager_render. cbn -[deref].
  rewrite (isCostume_eq w h Hc), Hid. cbn -[deref].
  rewrite (isEndOfGame_eq w h Hc), Hid. cbn.
  unfold _renderEndOfGamePopover, _renderFireworks, render_particle, on_ctx,
    ctx_canvas, this_ctx.
  open_world w. cbn. rewrite E1, E2, E3. cbn.
  rewrite !update_nth_compose.
  rewrite !nth_update_nth_same by assumption. cbn.
  match goal with |- context [update_nth h ?F hp] =>
    rewrite (update_nth_ext_at F (end_paint t1 t2 t3 f) hp h new_canvas)
  end; [reflexivity |].
  destruct (nth h hp new_canvas). canvas_eval. reflexivity.
Qed.

Lemma presentCostume_explicit (c : COSTUME_TYPE) (w : World) (b : nat) :
  window_ctx (dom w) = Ref b ->
  (b < List.length (heap (dom w)))%nat ->
  show (CostumeReveal c) w
  = Ok tt (set_costumeData (CostumeFull (costume_record c (cv_width (deref w b))))
             (attached (costume_canvas (deref w b)) w)).
Proof.
  intros Hb Hlt.
  destruct c; unfold show, presentDwarfPopover, presentLaserManPopover,
    presentGhostPopover, _addCanvasToDOMWithID, _setCostumeDataForCostume,
    window_canvas, ctx_canvas, this_ctx;
    open_world w; js_eval; rewrite !app_nth1 by assumption; js_eval; reflexivity.
Qed.

Lemma presentGameFinishPopover_explicit (w : World) :
  let n := List.length (heap (dom w)) in
  let t := "rgba(255, 184, 6, %alpha%)" in
  presentGameFinishPopover w
  = Ok tt (set_fireworks (Some (initial_fireworks n))
             (attached (end_paint t t t (initial_fireworks n)
                          (set_cv_id "game-end-popover" new_canvas)) w)).
Proof.
  unfold presentGameFinishPopover, _addCanvasToDOMWithID, _setFireworks,
    _renderEndOfGamePopover, _renderFireworks, render_particle, on_ctx, ctx_canvas,
    this_ctx.
  js_eval. reflexivity.
Qed.

(** ** The stronger invariant *)

Lemma popover_id_not_board (k : PopoverKind) : popover_id k <> "game-board".
Proof. destruct k; discriminate. Qed.

Lemma Forall_update_nth_at {A : Type} (P : A -> Prop) (f : A -> A) (l : list A)
    (n : nat) (d : A) :
  Forall P l -> (P (nth n l d) -> P (f (nth n l d))) -> Forall P (update_nth n f l).
Proof.
  revert n. induction l as [| x t IH]; intros [| n] Hl Hf; cbn in *; auto;
    inversion Hl; subst; constructor; auto.
Qed.

Lemma Forall_nth_default {A : Type} (P : A -> Prop) (l : list A) (n : nat) (d : A) :
  Forall P l -> (n < List.length l)%nat -> P (nth n l d).
Proof. intros Hl Hn. rewrite Forall_forall in Hl. apply Hl, nth_In, Hn. Qed.

Lemma remove_child_incl (h : nat) (l l' : list nat) :
  remove_child h l = Some l' -> forall x, In x l' -> In x l.
Proof.
  revert l'. induction l as [| a t IH]; cbn; intros l' H x Hx; [discriminate |].
  destruct (Nat.eqb a h).
  - injection H as <-. now right.
  - destruct (remove_child h t) as [t' |]; [| discriminate].
    injection H as <-. destruct Hx as [-> | Hx]; [now left | right; eauto].
Qed.

Lemma remove_child_keeps (h : nat) (l l' : list nat) :
  remove_child h l = Some l' -> forall x, In x l -> x <> h -> In x l'.
Proof.
  revert l'. induction l as [| a t IH]; cbn; intros l' H x Hx Hne; [tauto |].
  destruct (Nat.eqb_spec a h) as [-> | Hah].
  - injection H as <-. destruct Hx; [congruence | assumption].
  - destruct (remove_child h t) as [t' |]; [| discriminate].
    injection H as <-. destruct Hx as [-> | Hx]; [now left | right; eauto].
Qed.

Lemma canvas_ok_game_start : canvas_ok game_start_canvas.
Proof.
  split; [| split]; cbn; try discriminate.
  intros url x y H.
  repeat (destruct H as [H | H]; [try discriminate |]); try contradiction.
  injection H as <- _ _. cbn. tauto.
Qed.

Lemma canvas_ok_costume_canvas (board : Canvas) : canvas_ok (costume_canvas board).
Proof.
  split; [| split]; cbn; try discriminate. intros url x y H. destruct H.
Qed.

Lemma canvas_ok_costume_paint (bh : Z) (d : CostumeData) (c : Canvas) :
  images_loaded c -> cv_id c = "costume-popover" -> In (spriteURL d) engine_assets ->
  canvas_ok (costume_paint bh d c).
Proof.
  intros Him Hid Hs. split; [| split]; cbn -[engine_assets].
  - intros url x y H. apply in_app_or in H. destruct H as [H | H]; [eauto |].
    repeat (destruct H as [H | H]; [try discriminate |]); try contradiction.
    injection H as <- _ _. exact Hs.
  - rewrite Hid. discriminate.
  - rewrite Hid. discriminate.
Qed.

Lemma canvas_ok_end_paint (t1 t2 t3 : string) (f : Fireworks) (c : Canvas) :
  images_loaded c -> cv_id c = "game-end-popover" ->
  canvas_ok (end_paint t1 t2 t3 f c).
Proof.
  intros Him Hid. split; [| split]; cbn -[engine_assets].
  - intros url x y H.
    repeat (apply in_app_or in H; destruct H as [H | H]); eauto;
      repeat (destruct H as [H | H]; [try discriminate |]); contradiction.
  - rewrite Hid. discriminate.
  - auto.
Qed.

Lemma later_refl (w : World) : later w w.
Proof. split; auto. Qed.

Lemma later_trans (w1 w2 w3 : World) : later w1 w2 -> later w2 w3 -> later w1 w3.
Proof. unfold later. intros (A & B) (C & D). split; [congruence | lia]. Qed.

Lemma lastTime_read_later (w w' : World) :
  lastTime_read w -> later w w' -> lastTime (engine w') = lastTime (engine w) ->
  lastTime_read w'.
Proof.
  intros (k & Hk & Hl) (Hc & Hr) He. exists k. split; [lia |]. congruence.
Qed.

(** A step that keeps the identity of every canvas, the container and the
    manager's surface keeps the invariant, given what it did to the canvases,
    the fireworks, the costume record and the clock. *)
Lemma inv_preserved (w w' : World) :
  inv w ->
  wf w' ->
  Forall canvas_ok (heap (dom w')) ->
  window_ctx (dom w') = window_ctx (dom w) ->
  eng_canvas (engine w') = eng_canvas (engine w) ->
  container (dom w') = container (dom w) ->
  List.length (heap (dom w')) = List.length (heap (dom w)) ->
  (forall i, cv_id (deref w' i) = cv_id (deref w i)) ->
  ctx (pm w') = ctx (pm w) ->
  (forall f, fireworks (pm w') = Some f ->
     particles_ok f
     /\ exists f0, fireworks (pm w) = Some f0 /\ fw_canvas f0 = fw_canvas f) ->
  (forall d, costumeData (pm w') = CostumeFull d ->
     exists d0, costumeData (pm w) = CostumeFull d0 /\ spriteURL d0 = spriteURL d) ->
  lastTime_read w' ->
  inv w'.
Proof.
  intros (_ & _ & Hwin & Hin & Hbid & Hcont & Hsurf & Hfw & Hcd & _)
    Hwf Hcv Ewin Eeng Econt Elen Eid Ectx Efw Ecd Hlt.
  unfold inv.
  split; [exact Hwf |]. split; [exact Hcv |]. split; [congruence |].
  split; [rewrite Eeng, Econt; exact Hin |].
  split; [rewrite Eid, Eeng; exact Hbid |].
  split; [rewrite Econt, Elen; exact Hcont |].
  split; [intros h Hh; rewrite Eid; apply Hsurf; congruence |].
  split.
  - intros f Hf. destruct (Efw f Hf) as (Hp & f0 & Hf0 & E).
    rewrite Elen, Eid, <- E. destruct (Hfw f0 Hf0) as (A & B & _). auto.
  - split; [| exact Hlt].
    intros d Hd. destruct (Ecd d Hd) as (d0 & Hd0 & <-). eauto.
Qed.

(** ** The fireworks, particle by particle *)

Lemma restart_at_random_ok (canvas : nat) (p : Particle) (w : World) (W H : Z) :
  cv_width (deref w canvas) = W -> cv_height (deref w canvas) = H ->
  (0 <= W)%Z -> (0 <= H)%Z ->
  exists p' w',
    restart_at_random canvas p w = Ok p' w'
    /\ same_but_host w w' /\ later w w'
    /\ particle_ok W H p'
    /\ radius p' = radius p /\ lineWidth p' = lineWidth p /\ alpha p' = alpha p.
Proof.
  intros HW HH H0W H0H. rewrite restart_at_random_eq.
  do 2 eexists. split; [reflexivity |].
  split; [repeat split |]. split; [split; cbn; auto |].
  split; [| repeat split].
  unfold particle_ok. cbn -[array_get colors drawn_in_range deref].
  rewrite HW, HH.
  split; [| split; apply drawn_in_range_bounds; assumption].
  apply array_get_colors, drawn_in_range_bounds. lia.
Qed.

Lemma particle1_update_ok (canvas : nat) (dt : float) (p : Particle) (w : World)
    (W H : Z) :
  cv_width (deref w canvas) = W -> cv_height (deref w canvas) = H ->
  (0 <= W)%Z -> (0 <= H)%Z -> particle_ok W H p ->
  exists p' w',
    particle1_update canvas dt p w = Ok p' w'
    /\ same_but_host w w' /\ later w w'
    /\ particle_ok W H p' /\ radius p' = radius p.
Proof.
  intros HW HH H0W H0H Hp. unfold particle1_update. cbn -[restart_at_random deref].
  destruct (_ <? 0)%float.
  - match goal with |- context [restart_at_random canvas ?q w] =>
      destruct (restart_at_random_ok canvas q w W H HW HH H0W H0H)
        as (p' & w' & E & F & L & Hok & Hr & _)
    end.
    exists p', w'. rewrite E. auto.
  - do 2 eexists. split; [reflexivity |].
    split; [repeat split |]. split; [apply later_refl |]. split; [exact Hp | reflexivity].
Qed.

Lemma particle2_update_ok (canvas : nat) (dt : float) (p : Particle) (w : World)
    (W H : Z) :
  cv_width (deref w canvas) = W -> cv_height (deref w canvas) = H ->
  (0 <= W)%Z -> (0 <= H)%Z -> particle_ok W H p ->
  exists p' w',
    particle2_update canvas dt p w = Ok p' w'
    /\ same_but_host w w' /\ later w w'
    /\ particle_ok W H p' /\ lineWidth p' = lineWidth p.
Proof.
  intros HW HH H0W H0H Hp. unfold particle2_update. cbn -[restart_at_random deref].
  destruct (_ <? 0)%float.
  - match goal with |- context [restart_at_random canvas ?q w] =>
      destruct (restart_at_random_ok canvas q w W H HW HH H0W H0H)
        as (p' & w' & E & F & L & Hok & _ & Hl & _)
    end.
    exists p', w'. rewrite E. auto.
  - do 2 eexists. split; [reflexivity |].
    split; [repeat split |]. split; [apply later_refl |]. split; [exact Hp | reflexivity].
Qed.

Lemma particle3_update_ok (canvas : nat) (dt : float) (p : Particle) (w : World)
    (W H : Z) :
  cv_width (deref w canvas) = W -> cv_height (deref w canvas) = H ->
  (0 <= W)%Z -> (0 <= H)%Z -> particle_ok W H p ->
  exists p' w',
    particle3_update canvas dt p w = Ok p' w'
    /\ same_but_host w w' /\ later w w'
    /\ particle_ok W H p' /\ alpha p' = alpha p.
Proof.
  intros HW HH H0W H0H Hp. unfold particle3_update. cbn -[restart_at_random deref].
  destruct (_ <? 0)%float.
  - match goal with |- context [restart_at_random canvas ?q w] =>
      destruct (restart_at_random_ok canvas q w W H HW HH H0W H0H)
        as (p' & w' & E & F & L & Hok & _ & _ & Ha)
    end.
    exists p', w'. rewrite E. auto.
  - do 2 eexists. split; [reflexivity |].
    split; [repeat split |]. split; [apply later_refl |]. split; [exact Hp | reflexivity].
Qed.

Lemma same_but_host_deref (w w' : World) (i : nat) :
  same_but_host w w' -> deref w' i = deref w i.
Proof. intros (E & _). unfold deref. now rewrite E. Qed.

Lemma _updateFireworks_ok (dt : float) (w : World) (f : Fireworks) :
  fireworks (pm w) = Some f ->
  cv_width (deref w (fw_canvas f)) = 1280%Z ->
  cv_height (deref w (fw_canvas f)) = 700%Z ->
  particles_ok f ->
  exists f' w1,
    _updateFireworks dt w = Ok tt (set_fireworks (Some f') w1)
    /\ same_but_host w w1 /\ later w w1
    /\ fw_canvas f' = fw_canvas f /\ particles_ok f'.
Proof.
  intros Hf HW HH (R1 & L2 & A3 & P1 & P2 & P3).
  unfold _updateFireworks, bind, gets. rewrite Hf.
  destruct (particle1_update_ok (fw_canvas f) dt (particle1 f) w 1280 700 HW HH
              ltac:(lia) ltac:(lia) P1) as (p1 & w1 & E1 & F1 & T1 & Q1 & K1).
  assert (HW1 : cv_width (deref w1 (fw_canvas f)) = 1280%Z)
    by (now rewrite (same_but_host_deref w w1)).
  assert (HH1 : cv_height (deref w1 (fw_canvas f)) = 700%Z)
    by (now rewrite (same_but_host_deref w w1)).
  destruct (particle2_update_ok (fw_canvas f) dt (particle2 f) w1 1280 700 HW1 HH1
              ltac:(lia) ltac:(lia) P2) as (p2 & w2 & E2 & F2 & T2 & Q2 & K2).
  assert (HW2 : cv_width (deref w2 (fw_canvas f)) = 1280%Z)
    by (now rewrite (same_but_host_deref w1 w2)).
  assert (HH2 : cv_height (deref w2 (fw_canvas f)) = 700%Z)
    by (now rewrite (same_but_host_deref w1 w2)).
  destruct (particle3_update_ok (fw_canvas f) dt (particle3 f) w2 1280 700 HW2 HH2
              ltac:(lia) ltac:(lia) P3) as (p3 & w3 & E3 & F3 & T3 & Q3 & K3).
  rewrite E1, E2, E3. unfold modify.
  exists (mkFireworks (fw_canvas f) p1 p2 p3), w3.
  split; [reflexivity |].
  split; [eapply same_but_host_trans; [eapply same_but_host_trans |]; eassumption |].
  split; [eapply later_trans; [eapply later_trans |]; eassumption |].
  split; [reflexivity |].
  unfold particles_ok. cbn. repeat split; try congruence; try apply Q1;
    try apply Q2; try apply Q3.
Qed.

(** ** The stronger invariant, step by step *)

Lemma inv_PopoverManager_update (dt : float) (w : World) :
  inv w ->
  exists w',
    PopoverManager_update dt w = Ok tt w' /\ inv w'
    /\ dom w' = dom w /\ game w' = game w /\ engine w' = engine w
    /\ trace w' = trace w /\ later w w'.
Proof.
  intros Hinv.
  pose proof Hinv as (Hwf & Hcv & Hwin & Hin & Hbid & Hcont & Hsurf & Hfw & Hcd & Hlt).
  destruct (PopoverManager_update_ok dt w Hwf)
    as (w' & Hu & Hwf' & Hdom & Hg & He & Ht & Hc).
  exists w'. split; [exact Hu |].
  assert (Hx : later w w'
               /\ (forall f, fireworks (pm w') = Some f ->
                     particles_ok f
                     /\ exists f0, fireworks (pm w) = Some f0
                                   /\ fw_canvas f0 = fw_canvas f)
               /\ (forall d, costumeData (pm w') = CostumeFull d ->
                     exists d0, costumeData (pm w) = CostumeFull d0
                                /\ spriteURL d0 = spriteURL d)).
  { destruct Hwf as (_ & _ & Hs).
    destruct (ctx (pm w)) as [| | h] eqn:Hctx; [tauto | |].
    - rewrite PopoverManager_update_null in Hu by exact Hctx. injection Hu as <-.
      split; [apply later_refl |]. split.
      + intros f Hf. split; [apply (Hfw f Hf) | eauto].
      + intros d Hd. eauto.
    - destruct Hs as (Hlt' & _ & Hcos & Hend).
      destruct (String.eqb_spec (cv_id (deref w h)) "costume-popover") as [Hid | Hne].
      + destruct (Hcos Hid) as [d Hd].
        rewrite (PopoverManager_update_costume dt w h d Hctx Hid Hd) in Hu.
        injection Hu as <-. cbn.
        split; [split; cbn; auto |]. split.
        * intros f Hf. split; [apply (Hfw f Hf) | eauto].
        * intros d' Hd'. injection Hd' as <-. exists d. auto.
      + destruct (String.eqb_spec (cv_id (deref w h)) "game-end-popover")
          as [Hid | Hne'].
        * destruct (Hend Hid) as (f & Hf & _).
          destruct (Hfw f Hf) as (Hflt & Hfid & Hfok).
          assert (Hdims : cv_width (deref w (fw_canvas f)) = 1280%Z
                          /\ cv_height (deref w (fw_canvas f)) = 700%Z).
          { apply (Forall_nth_default canvas_ok _ _ new_canvas Hcv Hflt). exact Hfid. }
          destruct Hdims as (HW & HH).
          destruct (_updateFireworks_ok dt w f Hf HW HH Hfok)
            as (f' & w1 & Ef & Fs & Fl & Efc & Hok').
          assert (Hu' : PopoverManager_update dt w = Ok tt (set_fireworks (Some f') w1)).
          { unfold PopoverManager_update. cbn -[deref _updateFireworks].
            rewrite (isCostume_eq w h Hctx).
            destruct (String.eqb_spec (cv_id (deref w h)) "costume-popover");
              [contradiction |].
            cbn -[deref _updateFireworks].
            rewrite (isEndOfGame_eq w h Hctx), Hid. cbn -[_updateFireworks].
            exact Ef. }
          rewrite Hu' in Hu. injection Hu as <-. cbn.
          destruct Fs as (_ & _ & _ & _ & Epm).
          split; [exact Fl |]. split.
          -- intros f0 Hf0. injection Hf0 as <-. split; [exact Hok' | eauto].
          -- intros d Hd. rewrite Epm in Hd. eauto.
        * rewrite (PopoverManager_update_static dt w h Hctx) in Hu
            by (now apply String.eqb_neq).
          injection Hu as <-.
          split; [apply later_refl |]. split.
          -- intros f Hf. split; [apply (Hfw f Hf) | eauto].
          -- intros d Hd. eauto. }
  destruct Hx as (Hl & Hf' & Hd').
  split; [| auto].
  apply (inv_preserved w w' Hinv Hwf');
    [ now rewrite Hdom | congruence | congruence | congruence | congruence
    | intros i; unfold deref; now rewrite Hdom | exact Hc | exact Hf' | exact Hd'
    | eapply lastTime_read_later; [exact Hlt | exact Hl | congruence] ].
Qed.

Lemma inv_PopoverManager_render (w : World) :
  inv w ->
  exists w',
    PopoverManager_render w = Ok tt w' /\ inv w'
    /\ game w' = game w /\ engine w' = engine w /\ trace w' = trace w
    /\ host w' = host w
    /\ container (dom w') = container (dom w)
    /\ fireworks (pm w') = fireworks (pm w)
    /\ List.length (heap (dom w')) = List.length (heap (dom w))
    /\ (forall i, ctx (pm w) <> Ref i -> deref w' i = deref w i).
Proof.
  intros Hinv.
  pose proof Hinv as (Hwf & Hcv & Hwin & Hin & Hbid & Hcont & Hsurf & Hfw & Hcd & Hlt).
  destruct (PopoverManager_render_ok w Hwf)
    as (w' & Hr & Hwf' & Hg & He & Ht & Hh & Hc & Hco & Hf).
  exists w'. split; [exact Hr |].
  assert (Hx : Forall canvas_ok (heap (dom w'))
               /\ window_ctx (dom w') = window_ctx (dom w)
               /\ List.length (heap (dom w')) = List.length (heap (dom w))
               /\ (forall i, cv_id (deref w' i) = cv_id (deref w i))
               /\ (forall d, costumeData (pm w') = CostumeFull d ->
                     exists d0, costumeData (pm w) = CostumeFull d0
                                /\ spriteURL d0 = spriteURL d)
               /\ (forall i, ctx (pm w) <> Ref i -> deref w' i = deref w i)).
  { destruct Hwf as (_ & _ & Hs).
    destruct (ctx (pm w)) as [| | h] eqn:Hctx; [tauto | |].
    - rewrite PopoverManager_render_null in Hr by exact Hctx. injection Hr as <-.
      repeat split; eauto.
    - destruct Hs as (Hlt' & _ & Hcos & Hend).
      destruct (String.eqb_spec (cv_id (deref w h)) "costume-popover") as [Hid | Hne].
      + destruct (Hcos Hid) as [d Hd].
        rewrite (PopoverManager_render_costume_eq w h _ d Hctx Hwin Hid Hd) in Hr.
        injection Hr as <-. cbn -[costume_paint].
        split.
        { apply (Forall_update_nth_at canvas_ok _ _ _ new_canvas Hcv).
          intros (Him & _). apply canvas_ok_costume_paint; auto. }
        split; [reflexivity |]. split; [apply update_nth_length |].
        split; [intros i; now apply (proj_update_nth cv_id) |].
        split; [intros d' Hd'; injection Hd' as <-; exists d; auto |].
        intros i Hi. apply nth_update_nth_other. congruence.
      + destruct (String.eqb_spec (cv_id (deref w h)) "game-end-popover")
          as [Hid | Hne'].
        * destruct (Hend Hid) as (f & Hff & _).
          destruct (Hfw f Hff) as (_ & _ & _ & _ & _ & P1 & P2 & P3).
          destruct P1 as ((t1 & E1 & _) & _), P2 as ((t2 & E2 & _) & _),
            P3 as ((t3 & E3 & _) & _).
          rewrite (PopoverManager_render_end_eq w h f t1 t2 t3 Hctx Hlt' Hid Hff
                     E1 E2 E3) in Hr.
          injection Hr as <-. cbn -[end_paint].
          split.
          { apply (Forall_update_nth_at canvas_ok _ _ _ new_canvas Hcv).
            intros (Him & _). apply canvas_ok_end_paint; auto. }
          split; [reflexivity |]. split; [apply update_nth_length |].
          split; [intros i; now apply (proj_update_nth cv_id) |].
          split; [eauto |].
          intros i Hi. apply nth_update_nth_other. congruence.
        * rewrite (PopoverManager_render_static w h Hctx) in Hr
            by (now apply String.eqb_neq).
          injection Hr as <-. repeat split; eauto. }
  destruct Hx as (Hcv' & Hwin' & Hlen & Hids & Hd' & Hoth).
  split; [| auto 10].
  apply (inv_preserved w w' Hinv Hwf');
    [ exact Hcv' | exact Hwin' | congruence | exact Hco | exact Hlen | exact Hids
    | exact Hc | | exact Hd' | ].
  - intros f Hf'. rewrite Hf in Hf'. split; [apply (Hfw f Hf') | eauto].
  - eapply lastTime_read_later; [exact Hlt | | congruence].
    unfold later. rewrite Hh. auto.
Qed.

Lemma wf_log (e : Event) (w : World) : wf w -> wf (log e w).
Proof. intros H. apply (wf_preserved w); auto. Qed.

Lemma inv_same_dom_pm (w w' : World) :
  inv w -> dom w' = dom w -> pm w' = pm w -> engine w' = engine w ->
  later w w' -> inv w'.
Proof.
  intros Hinv Hd Hp He Hl.
  pose proof Hinv as (Hwf & Hcv & _ & _ & _ & _ & _ & Hfw & _ & Hlt).
  apply (inv_preserved w w' Hinv);
    [ apply (wf_preserved w); auto; try congruence;
        try (intros i; unfold deref; now rewrite Hd);
        rewrite Hp; auto
    | now rewrite Hd | congruence | congruence | congruence | congruence
    | intros i; unfold deref; now rewrite Hd | congruence | | | ].
  - intros f Hf. rewrite Hp in Hf. split; [apply (Hfw f Hf) | eauto].
  - intros d H. rewrite Hp in H. eauto.
  - eapply lastTime_read_later; [exact Hlt | exact Hl | congruence].
Qed.

Lemma inv_logs (es : list Event) (w : World) : inv w -> inv (logs es w).
Proof.
  intros H.
  apply (inv_same_dom_pm w);
    [exact H | reflexivity | reflexivity | reflexivity | split; cbn; auto].
Qed.

Lemma inv_log (e : Event) (w : World) : inv w -> inv (log e w).
Proof.
  intros H.
  apply (inv_same_dom_pm w);
    [exact H | reflexivity | reflexivity | reflexivity | split; cbn; auto].
Qed.

Lemma inv_set_game (g : Game) (w : World) : inv w -> inv (set_game g w).
Proof.
  intros H.
  apply (inv_same_dom_pm w);
    [exact H | reflexivity | reflexivity | reflexivity | split; cbn; auto].
Qed.

Lemma inv_after_clock_read (w : World) : inv w -> inv (after_clock_read w).
Proof.
  intros H.
  apply (inv_same_dom_pm w); [exact H | reflexivity | reflexivity | reflexivity |].
  split; cbn; auto.
Qed.

Lemma canvas_ok_resize (zw zh : Z) (c : Canvas) :
  canvas_ok c -> cv_id c = "game-board" ->
  canvas_ok (set_cv_height zh (set_cv_width zw c)).
Proof.
  intros (Him & Hd & _) Hid. split; [| split]; cbn.
  - exact Him.
  - exact Hd.
  - rewrite Hid. discriminate.
Qed.

Lemma inv_resized (w : World) :
  inv w ->
  inv (set_heap (resized (game w) (heap (dom w)) (eng_canvas (engine w))) w).
Proof.
  intros Hinv.
  pose proof Hinv as (Hwf & Hcv & _ & _ & Hbid & _ & _ & Hfw & _ & Hlt).
  apply (inv_preserved w _ Hinv); try reflexivity.
  - pose proof (wf_resized w [] Hwf) as H. rewrite logs_nil in H. exact H.
  - cbn. unfold resized. rewrite update_nth_compose.
    apply (Forall_update_nth_at canvas_ok _ _ _ new_canvas Hcv).
    intros Hc. now apply canvas_ok_resize.
  - cbn. unfold resized. now rewrite !update_nth_length.
  - intros i. cbn. unfold resized.
    now rewrite !(proj_update_nth cv_id) by (intro; reflexivity).
  - intros f Hf. split; [apply (Hfw f Hf) | eauto].
  - intros d Hd. eauto.
  - exact Hlt.
Qed.

Lemma inv_update (dt : float) (w : World) :
  inv w ->
  exists w',
    update dt w = Ok tt w' /\ inv w' /\ later w w'
    /\ engine w' = engine w /\ game w' = game w
    /\ heap (dom w') = resized (game w) (heap (dom w)) (eng_canvas (engine w))
    /\ scroll (dom w') = scroll (dom w).
Proof.
  intros Hinv. rewrite update_eq.
  match goal with |- context [PopoverManager_update dt (logs ?es ?w1)] =>
    destruct (inv_PopoverManager_update dt (logs es w1)
                (inv_logs es w1 (inv_resized w Hinv)))
      as (w2 & Hu & Hinv2 & Hdom & Hg & He & _ & Hl)
  end.
  rewrite Hu. eexists. split; [reflexivity |].
  split; [now apply inv_log |].
  split; [exact Hl |]. cbn -[resized Z.mul] in Hdom, Hg, He.
  cbn -[resized Z.mul]. rewrite Hdom. auto.
Qed.

Lemma inv_render (w : World) :
  inv w ->
  exists w',
    render w = Ok tt w' /\ inv w'
    /\ host w' = host w /\ engine w' = engine w /\ game w' = game w
    /\ container (dom w') = container (dom w)
    /\ fireworks (pm w') = fireworks (pm w)
    /\ List.length (heap (dom w')) = List.length (heap (dom w))
    /\ (forall i, ctx (pm w) <> Ref i -> deref w' i = deref w i).
Proof.
  intros Hinv. rewrite render_eq.
  destruct (inv_PopoverManager_render _ (inv_logs (render_steps (game w)) w Hinv))
    as (w2 & Hr & Hinv2 & Hg & He & _ & Hh & Hco & Hf & Hlen & Hoth).
  exists w2. split; [exact Hr |]. split; [exact Hinv2 |]. auto 10.
Qed.

Lemma inv_main (w : World) :
  inv w ->
  exists w',
    main w = Ok tt w' /\ inv w' /\ later w w'
    /\ lastTime (engine w') = Some (current_time w)
    /\ (clock_reads (host w) < clock_reads (host w'))%nat
    /\ game w' = game w.
Proof.
  intros Hinv. rewrite main_eq.
  destruct (inv_update (frame_dt w) _ (inv_after_clock_read w Hinv))
    as (w1 & Hu & Hinv1 & Hl1 & He1 & Hg1 & _).
  destruct (inv_render w1 Hinv1) as (w2 & Hr & Hinv2 & Hh2 & He2 & Hg2 & _).
  rewrite Hu, Hr. eexists. split; [reflexivity |].
  assert (Hl : later w w2 /\ (clock_reads (host w) < clock_reads (host w2))%nat).
  { destruct Hl1 as (Hc & Hrd). cbn in Hc, Hrd. unfold later. rewrite Hh2.
    split; [split |]; auto; lia. }
  destruct Hl as (Hl & Hlt).
  split.
  - pose proof Hinv2 as (Hwf2 & Hcv2 & Hwin2 & Hin2 & Hbid2 & Hcont2 & Hsurf2 & Hfw2
                         & Hcd2 & _).
    apply (inv_preserved w2 _ Hinv2); try reflexivity.
    + apply (wf_preserved w2); auto.
    + exact Hcv2.
    + intros f Hf. split; [apply (Hfw2 f Hf) | eauto].
    + intros d Hd. eauto.
    + exists (clock_reads (host w)). cbn. split; [exact Hlt |].
      unfold current_time. destruct Hl as (-> & _). reflexivity.
  - cbn. split; [exact Hl |]. split; [reflexivity |]. split; [exact Hlt |].
    cbn in Hg1. congruence.
Qed.

Lemma inv_attached (k : PopoverKind) (w w' : World) (cv : Canvas) :
  inv w ->
  canvas_ok cv ->
  cv_id cv = popover_id k ->
  wf w' ->
  dom w' = dom (attached cv w) ->
  ctx (pm w') = Ref (List.length (heap (dom w))) ->
  engine w' = engine w ->
  host w' = host w ->
  (forall d, costumeData (pm w') = CostumeFull d -> In (spriteURL d) engine_assets) ->
  (forall f, fireworks (pm w') = Some f ->
     fireworks (pm w) = Some f
     \/ (fw_canvas f = List.length (heap (dom w)) /\ k = GameEnd /\ particles_ok f)) ->
  inv w'.
Proof.
  intros (Hwf & Hcv & Hwin & Hin & Hbid & Hcont & Hsurf & Hfw & Hcd & Hlt)
    Hok Hid Hwf' Hdom Hctx Heng Hhost Hcd' Hfw'.
  destruct Hwf as (_ & He & _).
  unfold inv, deref, lastTime_read. rewrite Hdom, Hctx, Heng, Hhost. cbn.
  split; [exact Hwf' |].
  split; [apply Forall_app; split; [exact Hcv | constructor; [exact Hok | constructor]] |].
  split; [exact Hwin |].
  split; [apply in_or_app; now left |].
  split; [rewrite app_nth1 by exact He; exact Hbid |].
  split.
  { apply Forall_app. split.
    - eapply Forall_impl; [| exact Hcont]. cbn. intros a Ha.
      rewrite length_app. cbn. lia.
    - constructor; [rewrite length_app; cbn; lia | constructor]. }
  split.
  { intros h Hh. injection Hh as <-. exists k. now rewrite nth_last. }
  split.
  { intros f Hf. rewrite length_app. cbn.
    destruct (Hfw' f Hf) as [Hold | (Hn & Hk & Hp)].
    - destruct (Hfw f Hold) as (A & B & C).
      split; [lia |]. split; [rewrite app_nth1 by exact A; exact B | exact C].
    - rewrite Hn, nth_last, Hid, Hk.
      split; [lia |]. split; [reflexivity | exact Hp]. }
  split; [exact Hcd' | exact Hlt].
Qed.

Lemma costume_sprite_loaded (c : COSTUME_TYPE) (z : Z) :
  In (spriteURL (costume_record c z)) engine_assets.
Proof.
  destruct c; cbn;
    repeat (first [left; reflexivity | right]).
Qed.

Lemma particles_ok_initial (n : nat) : particles_ok (initial_fireworks n).
Proof.
  assert (Hp : forall r l a,
             particle_ok 1280 700
               (mkParticle r l a (0, 0)%Z (Some "rgba(255, 184, 6, %alpha%)"))).
  { intros r l a. split; [| cbn; lia].
    eexists. split; [reflexivity |]. cbn. tauto. }
  unfold particles_ok, initial_fireworks. cbn [particle1 particle2 particle3
    radius lineWidth alpha]. auto 10.
Qed.

Lemma wf_show_result (k : PopoverKind) (w w' : World) :
  wf w -> show k w = Ok tt w' -> wf w'.
Proof.
  intros Hwf Hs. destruct (show_ok k w Hwf) as (w'' & Hs' & Hwf'). congruence.
Qed.

Lemma inv_showGameStartPopover (w : World) :
  inv w -> inv (set_costumeData CostumeEmpty (attached game_start_canvas w)).
Proof.
  intros Hinv.
  apply (inv_attached GameStart w _ game_start_canvas Hinv canvas_ok_game_start);
    [ reflexivity | | reflexivity | reflexivity | reflexivity | reflexivity | | ].
  - apply (wf_show_result GameStart w); [apply Hinv | apply showGameStartPopover_eq].
  - intros d Hd. discriminate.
  - intros f Hf. now left.
Qed.

Lemma inv_presentCostume (c : COSTUME_TYPE) (w : World) :
  inv w ->
  inv (set_costumeData
         (CostumeFull (costume_record c (cv_width (deref w (eng_canvas (engine w))))))
         (attached (costume_canvas (deref w (eng_canvas (engine w)))) w)).
Proof.
  intros Hinv.
  apply (inv_attached (CostumeReveal c) w _
           (costume_canvas (deref w (eng_canvas (engine w)))) Hinv
           (canvas_ok_costume_canvas _));
    [ reflexivity | | reflexivity | reflexivity | reflexivity | reflexivity | | ].
  - apply (wf_show_result (CostumeReveal c) w); [apply Hinv |].
    apply presentCostume_explicit; apply Hinv.
  - intros d Hd. injection Hd as <-. apply costume_sprite_loaded.
  - intros f Hf. now left.
Qed.

Lemma inv_presentGameFinishPopover (w : World) :
  inv w ->
  inv (set_fireworks (Some (initial_fireworks (List.length (heap (dom w)))))
         (attached (end_paint "rgba(255, 184, 6, %alpha%)" "rgba(255, 184, 6, %alpha%)"
                      "rgba(255, 184, 6, %alpha%)"
                      (initial_fireworks (List.length (heap (dom w))))
                      (set_cv_id "game-end-popover" new_canvas)) w)).
Proof.
  intros Hinv.
  apply (inv_attached GameEnd w _
           (end_paint "rgba(255, 184, 6, %alpha%)" "rgba(255, 184, 6, %alpha%)"
              "rgba(255, 184, 6, %alpha%)"
              (initial_fireworks (List.length (heap (dom w))))
              (set_cv_id "game-end-popover" new_canvas)) Hinv
           (canvas_ok_end_paint _ _ _ _ (set_cv_id "game-end-popover" new_canvas)
              ltac:(intros url x y H; destruct H) eq_refl));
    [ reflexivity | | reflexivity | reflexivity | reflexivity | reflexivity | | ].
  - apply (wf_show_result GameEnd w); [apply Hinv |].
    apply presentGameFinishPopover_explicit.
  - intros d Hd. apply Hinv. exact Hd.
  - intros f Hf. injection Hf as <-. right.
    split; [reflexivity |]. split; [reflexivity | apply particles_ok_initial].
Qed.

Lemma inv_show (k : PopoverKind) (w : World) :
  inv w ->
  exists w' cv,
    show k w = Ok tt w' /\ inv w'
    /\ dom w' = dom (attached cv w)
    /\ cv_id cv = popover_id k
    /\ ctx (pm w') = Ref (List.length (heap (dom w)))
    /\ host w' = host w /\ engine w' = engine w /\ game w' = game w
    /\ trace w' = trace w.
Proof.
  intros Hinv. destruct k as [| c |].
  - exists (set_costumeData CostumeEmpty (attached game_start_canvas w)),
      game_start_canvas.
    split; [apply showGameStartPopover_eq |].
    split; [apply inv_showGameStartPopover, Hinv |]. repeat split.
  - exists (set_costumeData
              (CostumeFull
                 (costume_record c (cv_width (deref w (eng_canvas (engine w))))))
              (attached (costume_canvas (deref w (eng_canvas (engine w)))) w)),
      (costume_canvas (deref w (eng_canvas (engine w)))).
    split; [apply presentCostume_explicit; apply Hinv |].
    split; [apply inv_presentCostume, Hinv |]. repeat split.
  - exists (set_fireworks (Some (initial_fireworks (List.length (heap (dom w)))))
              (attached (end_paint "rgba(255, 184, 6, %alpha%)"
                           "rgba(255, 184, 6, %alpha%)" "rgba(255, 184, 6, %alpha%)"
                           (initial_fireworks (List.length (heap (dom w))))
                           (set_cv_id "game-end-popover" new_canvas)) w)),
      (end_paint "rgba(255, 184, 6, %alpha%)" "rgba(255, 184, 6, %alpha%)"
         "rgba(255, 184, 6, %alpha%)"
         (initial_fireworks (List.length (heap (dom w))))
         (set_cv_id "game-end-popover" new_canvas)).
    split; [apply presentGameFinishPopover_explicit |].
    split; [apply inv_presentGameFinishPopover, Hinv |]. repeat split.
Qed.

Lemma inv_removePopover (w : World) :
  inv w ->
  exists w',
    removePopover w = Ok tt w' /\ inv w' /\ ctx (pm w') = Null
    /\ heap (dom w') = heap (dom w)
    /\ (forall h, ctx (pm w) = Ref h ->
          remove_child h (container (dom w)) = Some (container (dom w'))).
Proof.
  intros Hinv.
  pose proof Hinv as (Hwf & Hcv & Hwin & Hin & Hbid & Hcont & Hsurf & Hfw & Hcd & Hlt).
  destruct (removePopover_ok w Hwf) as (w' & Hr & Hwf' & Hnull).
  exists w'. split; [exact Hr |].
  pose proof Hwf as (_ & _ & Hs).
  destruct (ctx (pm w)) as [| | h] eqn:Hctx; [tauto | |].
  - rewrite removePopover_null in Hr by exact Hctx. injection Hr as <-.
    split; [exact Hinv |]. split; [exact Hctx |]. split; [reflexivity |].
    intros h Hh. congruence.
  - destruct Hs as (_ & Hinh & _).
    destruct (removePopover_active w h Hctx Hinh) as (l & Hl & Hr').
    rewrite Hr' in Hr. injection Hr as <-. cbn.
    split; [| split; [reflexivity | split; [reflexivity |]]].
    + unfold inv, deref, lastTime_read. cbn.
      split; [exact Hwf' |]. split; [exact Hcv |]. split; [exact Hwin |].
      split.
      { apply (remove_child_keeps h _ l Hl); [exact Hin |].
        intros Heq. destruct (Hsurf h eq_refl) as [k Hk].
        rewrite Heq in Hbid. unfold deref in Hbid, Hk. rewrite Hbid in Hk.
        symmetry in Hk. now apply popover_id_not_board in Hk. }
      split; [exact Hbid |].
      split.
      { rewrite Forall_forall in *. intros x Hx.
        apply Hcont, (remove_child_incl h _ l Hl), Hx. }
      split; [intros h' Hh'; discriminate |].
      split; [exact Hfw |]. split; [exact Hcd | exact Hlt].
    + intros h' Hh'. injection Hh' as <-. exact Hl.
Qed.

(** The engine set up on the loaded page, its clock read once for
    [lastTime], and no popover yet. *)
Lemma inv_engine_ready (w : World) (c : Canvas) :
  heap (dom w) = [c] ->
  cv_id c = "game-board" ->
  cv_drawn c = [] ->
  container (dom w) = [0%nat] ->
  window_ctx (dom w) = Ref 0 ->
  eng_canvas (engine w) = 0%nat ->
  ctx (pm w) = Null ->
  fireworks (pm w) = None ->
  costumeData (pm w) = CostumeUndefined ->
  lastTime_read w ->
  inv w.
Proof.
  intros Hheap Hid Hdr Hcont Hwin Heng Hctx Hfw Hcd Hlt.
  unfold inv, wf, deref. rewrite Hheap, Hcont, Hwin, Heng, Hctx, Hfw, Hcd. cbn.
  split; [split; [eauto | split; [lia | exact I]] |].
  split.
  { constructor; [| constructor]. split; [| split].
    - intros url x y H. rewrite Hdr in H. destruct H.
    - intros _. exact Hdr.
    - rewrite Hid. discriminate. }
  split; [reflexivity |]. split; [now left |]. split; [exact Hid |].
  split; [constructor; [lia | constructor] |].
  split; [intros h Hh; discriminate |].
  split; [intros f Hf; discriminate |].
  split; [intros d Hd; discriminate | exact Hlt].
Qed.

Lemma inv_init (h : Host) (g g' : Game) (w0 w : World) :
  Engine (page h g) = Ok tt w0 -> init (set_game g' w0) = Ok tt w -> inv w.
Proof.
  rewrite Engine_page_eq. intros Hw0 Hinit. injection Hw0 as <-.
  rewrite init_eq in Hinit.
  match type of Hinit with
  | main (set_costumeData CostumeEmpty (attached game_start_canvas ?wp)) = _ =>
      assert (Hpre : inv (set_ctx Null wp))
  end.
  { eapply inv_engine_ready; try reflexivity.
    exists (clock_reads h). split; [cbn; lia | reflexivity]. }
  apply inv_showGameStartPopover in Hpre.
  destruct (inv_main _ Hpre) as (w' & Hm & Hinv' & _).
  cbn -[main game_start_canvas Z.mul] in Hm, Hinit.
  rewrite Hm in Hinit. injection Hinit as <-. exact Hinv'.
Qed.

Lemma step_inv (w w' : World) : inv w -> step w w' -> inv w'.
Proof.
  intros Hinv Hstep. destruct Hstep as [w w' Hm | k w w' Hs | w w' Hr | g w].
  - destruct (inv_main w Hinv) as (w'' & Hm' & Hinv' & _). congruence.
  - destruct (inv_show k w Hinv) as (w'' & cv & Hs' & Hinv' & _). congruence.
  - destruct (inv_removePopover w Hinv) as (w'' & Hr' & Hinv' & _). congruence.
  - now apply inv_set_game.
Qed.

(** Every state of a running game satisfies the stronger invariant. *)
Lemma reachable_inv (w : World) : reachable w -> inv w.
Proof.
  induction 1 as [h g g' w0 w H0 Hi | w w' _ IH Hstep].
  - exact (inv_init h g g' w0 w H0 Hi).
  - exact (step_inv w w' IH Hstep).
Qed.

(** ** More sample states are states of a running game *)



Lemma dwarf_removed_reachable : reachable dwarf_removed.
Proof.
  eapply reach_step; [exact dwarf_after_frame_reachable |].
  apply step_remove. vm_compute. reflexivity.
Qed.

Lemma slow_end_after_frame_reachable : reachable slow_end_after_frame.
Proof.
  eapply reach_step; [eapply reach_step |].
  - apply (reach_init slow_host sample_game sample_game
             (run Engine (page slow_host sample_game))); vm_compute; reflexivity.
  - apply (step_show GameEnd slow_started slow_end_shown). vm_compute. reflexivity.
  - apply step_frame. vm_compute. reflexivity.
Qed.

(** ** The fireworks *)

(** X1: particle 2 fades its alpha by 5 * dt and grows its radius by
    18 * (5 * dt) on every update; when the faded alpha is below 0 the same
    update restarts it with alpha 1 and radius 0, a centre drawn as integers
    within the captured surface and a colour of the palette; otherwise centre
    and colour stay as they were.  Its stroke width is never changed. *)
Theorem particle2_update_rule (canvas : nat) (dt : float) (p : Particle) (w : World) :
  let faded := (alpha p - 5 * dt)%float in
  let grown := (radius p + 18 * (5 * dt))%float in
  let n := random_draws (host w) in
  let cv := deref w canvas in
  ((faded <? 0)%float = false ->
     particle2_update canvas dt p w
     = Ok (mkParticle grown (lineWidth p) faded (center p) (color p)) w)
  /\
  ((faded <? 0)%float = true ->
     exists x y k c,
       particle2_update canvas dt p w
       = Ok (mkParticle 0%float (lineWidth p) 1%float (x, y) (Some c)) (after_draws 3 w)
       /\ x = drawn_in_range w n 0 (cv_width cv)
       /\ y = drawn_in_range w (S n) 0 (cv_height cv)
       /\ k = drawn_in_range w (S (S n)) 0 2
       /\ array_get colors k = Some c /\ In c colors
       /\ ((0 <= cv_width cv)%Z -> (0 <= x <= cv_width cv)%Z)
       /\ ((0 <= cv_height cv)%Z -> (0 <= y <= cv_height cv)%Z)).
Proof.
  intros faded grown n cv. split; intros Hcmp.
  - unfold particle2_update. cbn. fold faded. rewrite Hcmp. reflexivity.
  - destruct (array_get_colors (drawn_in_range w (S (S n)) 0 2)) as [c [Hc Hin]].
    { apply drawn_in_range_bounds. lia. }
    exists (drawn_in_range w n 0 (cv_width cv)),
           (drawn_in_range w (S n) 0 (cv_height cv)),
           (drawn_in_range w (S (S n)) 0 2), c.
    repeat split; auto; try (apply drawn_in_range_bounds; assumption).
    unfold particle2_update. cbn -[restart_at_random]. fold faded. rewrite Hcmp.
    rewrite restart_at_random_eq. cbn -[drawn_in_range after_draws array_get colors].
    fold n cv. rewrite Hc. reflexivity.
Qed.

(** X2: in every state of a running game the fireworks keep their shape:
    particle 1 has radius 50, particle 2 stroke width 10 and particle 3
    alpha 1; each particle has one of the three palette colours and a centre
    within the 1280 by 700 end-of-game surface; and the canvas their updates
    captured is an end-of-game canvas of that size. *)
Theorem fireworks_keep_their_shape (w : World) (f : Fireworks) :
  reachable w ->
  fireworks (pm w) = Some f ->
  radius (particle1 f) = 50%float
  /\ lineWidth (particle2 f) = 10%float
  /\ alpha (particle3 f) = 1%float
  /\ (forall p, In p [particle1 f; particle2 f; particle3 f] ->
        (exists c, color p = Some c /\ In c colors)
        /\ (0 <= fst (center p) <= 1280)%Z
        /\ (0 <= snd (center p) <= 700)%Z)
  /\ (fw_canvas f < List.length (heap (dom w)))%nat
  /\ cv_id (deref w (fw_canvas f)) = "game-end-popover"
  /\ cv_width (deref w (fw_canvas f)) = 1280%Z
  /\ cv_height (deref w (fw_canvas f)) = 700%Z.
Proof.
  intros Hr Hf. apply reachable_inv in Hr.
  destruct Hr as (_ & Hcv & _ & _ & _ & _ & _ & Hfw & _).
  destruct (Hfw f Hf) as (Hlt & Hid & R1 & L2 & A3 & P1 & P2 & P3).
  split; [exact R1 |]. split; [exact L2 |]. split; [exact A3 |].
  split.
  { intros p [<- | [<- | [<- | []]]]; assumption. }
  split; [exact Hlt |]. split; [exact Hid |].
  apply (Forall_nth_default canvas_ok _ _ new_canvas Hcv Hlt). exact Hid.
Qed.

(** The fireworks after a frame of 0.4 s, in which all three restarted. *)
Lemma fireworks_keep_their_shape_witness :
  radius (particle1 restarted_fireworks) = 50%float
  /\ lineWidth (particle2 restarted_fireworks) = 10%float
  /\ alpha (particle3 restarted_fireworks) = 1%float
  /\ (forall p,
        In p [particle1 restarted_fireworks; particle2 restarted_fireworks;
              particle3 restarted_fireworks] ->
        (exists c, color p = Some c /\ In c colors)
        /\ (0 <= fst (center p) <= 1280)%Z
        /\ (0 <= snd (center p) <= 700)%Z)
  /\ (fw_canvas restarted_fireworks < List.length (heap (dom slow_end_after_frame)))%nat
  /\ cv_id (deref slow_end_after_frame (fw_canvas restarted_fireworks))
     = "game-end-popover"
  /\ cv_width (deref slow_end_after_frame (fw_canvas restarted_fireworks)) = 1280%Z
  /\ cv_height (deref slow_end_after_frame (fw_canvas restarted_fireworks)) = 700%Z.
Proof.
  exact (fireworks_keep_their_shape slow_end_after_frame restarted_fireworks
           slow_end_after_frame_reachable eq_refl).
Defined.



(** ** The game board canvas *)

(** X4: in every state of a running game the canvas the engine created is
    the one behind the global context, is a child of the container, is named
    "game-board", and has received no drawing call from the popover manager;
    it is never the manager's surface nor the canvas the fireworks captured. *)
Theorem board_canvas_is_left_alone (w : World) :
  reachable w ->
  window_ctx (dom w) = Ref (eng_canvas (engine w))
  /\ (eng_canvas (engine w) < List.length (heap (dom w)))%nat
  /\ In (eng_canvas (engine w)) (container (dom w))
  /\ cv_id (deref w (eng_canvas (engine w))) = "game-board"
  /\ cv_drawn (deref w (eng_canvas (engine w))) = []
  /\ surface w <> Some (eng_canvas (engine w))
  /\ (forall f, fireworks (pm w) = Some f -> fw_canvas f <> eng_canvas (engine w)).
Proof.
  intros Hr. apply reachable_inv in Hr.
  destruct Hr as (Hwf & Hcv & Hwin & Hin & Hbid & _ & Hsurf & Hfw & _).
  destruct Hwf as (_ & He & _).
  split; [exact Hwin |]. split; [exact He |]. split; [exact Hin |].
  split; [exact Hbid |]. split.
  { now apply (Forall_nth_default canvas_ok _ _ new_canvas Hcv He). }
  split.
  - unfold surface. destruct (ctx (pm w)) as [| | h] eqn:Hctx; try discriminate.
    intros Heq. injection Heq as ->. destruct (Hsurf _ eq_refl) as [k Hk].
    rewrite Hbid in Hk. symmetry in Hk. now apply popover_id_not_board in Hk.
  - intros f Hf Heq. destruct (Hfw f Hf) as (_ & Hid & _).
    rewrite Heq, Hbid in Hid. discriminate.
Qed.

(** The board canvas after the dwarf popover was shown, drawn and removed. *)
Lemma board_canvas_is_left_alone_witness :
  window_ctx (dom dwarf_removed) = Ref 0
  /\ (0 < List.length (heap (dom dwarf_removed)))%nat
  /\ In 0%nat (container (dom dwarf_removed))
  /\ cv_id (deref dwarf_removed 0) = "game-board"
  /\ cv_drawn (deref dwarf_removed 0) = []
  /\ surface dwarf_removed <> Some 0%nat
  /\ (forall f, fireworks (pm dwarf_removed) = Some f -> fw_canvas f <> 0%nat).
Proof. exact (board_canvas_is_left_alone dwarf_removed dwarf_removed_reachable). Defined.

(** ** Showing and removing *)

(** X5: showing a popover and removing it again leaves the container with
    exactly the children it had; the canvas that was created is detached
    with it (it is the last element that was created), the manager ends
    without a surface, and the engine, the game data, the host and the
    engine's trace are as before the show. *)
Theorem show_then_remove_restores_container (k : PopoverKind) (w : World) :
  reachable w ->
  exists w1 w2 cv,
    show k w = Ok tt w1
    /\ removePopover w1 = Ok tt w2
    /\ container (dom w2) = container (dom w)
    /\ surface w2 = None
    /\ heap (dom w2) = heap (dom w) ++ [cv]
    /\ cv_id cv = popover_id k
    /\ ~ In (List.length (heap (dom w))) (container (dom w2))
    /\ host w2 = host w /\ engine w2 = engine w /\ game w2 = game w
    /\ trace w2 = trace w.
Proof.
  intros Hr. apply reachable_inv in Hr.
  destruct (inv_show k w Hr)
    as (w1 & cv & Hs & Hinv1 & Hdom & Hid & Hctx & Hh & He & Hg & Ht).
  pose proof Hinv1 as (Hwf1 & _).
  destruct Hwf1 as (_ & _ & Hs1). rewrite Hctx in Hs1. destruct Hs1 as (_ & Hin1 & _).
  destruct (removePopover_active w1 _ Hctx Hin1) as (l & Hl & Hrm).
  assert (Hfresh : ~ In (List.length (heap (dom w))) (container (dom w))).
  { destruct Hr as (_ & _ & _ & _ & _ & Hcont & _).
    rewrite Forall_forall in Hcont. intros Hin. apply Hcont in Hin. lia. }
  assert (El : l = container (dom w)).
  { rewrite Hdom in Hl. cbn in Hl. rewrite remove_child_last in Hl by exact Hfresh.
    congruence. }
  exists w1. eexists. exists cv.
  split; [exact Hs |]. split; [exact Hrm |]. cbn. rewrite Hdom. cbn.
  repeat split; auto; congruence.
Qed.

(** The ghost popover shown over the start screen and removed at once. *)
Lemma show_then_remove_restores_container_witness :
  exists w1 w2 cv,
    show (CostumeReveal ghost) started = Ok tt w1
    /\ removePopover w1 = Ok tt w2
    /\ container (dom w2) = [0; 1]
    /\ surface w2 = None
    /\ heap (dom w2) = heap (dom started) ++ [cv]
    /\ cv_id cv = "costume-popover"
    /\ ~ In 2%nat (container (dom w2))
    /\ host w2 = host started /\ engine w2 = engine started
    /\ game w2 = game started
    /\ trace w2 = trace started.
Proof.
  exact (show_then_remove_restores_container (CostumeReveal ghost) started
           started_reachable).
Defined.

Lemma main_keeps_other_canvases (w : World) :
  inv w ->
  exists w',
    main w = Ok tt w' /\ inv w'
    /\ container (dom w') = container (dom w)
    /\ ctx (pm w') = ctx (pm w)
    /\ (forall i, ctx (pm w) <> Ref i -> cv_id (deref w' i) = cv_id (deref w i)).
Proof.
  intros Hinv. destruct (inv_main w Hinv) as (w' & Hm & Hinv' & _).
  exists w'. split; [exact Hm |]. split; [exact Hinv' |].
  rewrite main_eq in Hm.
  destruct (update_ok (frame_dt w) _ (wf_after_clock_read w (proj1 Hinv)))
    as (w1 & Hu & Hwf1 & _ & Hheap & Hco1 & _ & _ & Hc1).
  destruct (inv_update (frame_dt w) _ (inv_after_clock_read w Hinv))
    as (w1' & Hu' & Hinv1 & _).
  assert (w1' = w1) by congruence. subst w1'.
  destruct (inv_render w1 Hinv1) as (w2 & Hr & _ & _ & _ & _ & Hco2 & _ & _ & Hoth).
  destruct (render_ok w1 Hwf1) as (w2' & Hr' & _ & _ & _ & _ & _ & _ & Hc2 & _).
  assert (w2' = w2) by congruence. subst w2'.
  rewrite Hu, Hr in Hm. injection Hm as <-. cbn.
  split; [now rewrite Hco2 |]. split; [now rewrite Hc2 |].
  intros i Hi. cbn in Hc1.
  assert (Hi1 : ctx (pm w1) <> Ref i) by congruence.
  specialize (Hoth i Hi1). unfold deref in Hoth. rewrite Hoth, Hheap.
  unfold resized. cbn.
  now rewrite !(proj_update_nth cv_id) by (intro; reflexivity).
Qed.

Lemma step_keeps_other_canvases (w w' : World) (x : nat) :
  inv w -> step w w' ->
  In x (container (dom w)) -> surface w <> Some x ->
  In x (container (dom w')) /\ surface w' <> Some x
  /\ cv_id (deref w' x) = cv_id (deref w x).
Proof.
  intros Hinv Hstep Hin Hns.
  assert (Hx : (x < List.length (heap (dom w)))%nat).
  { destruct Hinv as (_ & _ & _ & _ & _ & Hcont & _).
    rewrite Forall_forall in Hcont. now apply Hcont. }
  assert (Hnc : ctx (pm w) <> Ref x).
  { intros Hc. apply Hns. unfold surface. now rewrite Hc. }
  destruct Hstep as [w w' Hm | k w w' Hs | w w' Hr | g w].
  - destruct (main_keeps_other_canvases w Hinv) as (w'' & Hm' & _ & Hco & Hc & Hid).
    assert (w'' = w') by congruence. subst w''.
    split; [now rewrite Hco |]. split; [| now apply Hid].
    unfold surface. rewrite Hc. exact Hns.
  - destruct (inv_show k w Hinv) as (w'' & cv & Hs' & _ & Hdom & _ & Hc & _).
    assert (w'' = w') by congruence. subst w''.
    split; [rewrite Hdom; cbn; apply in_or_app; now left |].
    split.
    + unfold surface. rewrite Hc. intros Heq. injection Heq as Heq. lia.
    + unfold deref. rewrite Hdom. cbn. now rewrite app_nth1.
  - destruct (inv_removePopover w Hinv) as (w'' & Hr' & _ & Hnull & Hheap & Hrc).
    assert (w'' = w') by congruence. subst w''.
    split.
    + destruct (ctx (pm w)) as [| | h] eqn:Hctx.
      * destruct Hinv as ((_ & _ & Hf) & _). rewrite Hctx in Hf. destruct Hf.
      * rewrite removePopover_null in Hr by exact Hctx. now injection Hr as <-.
      * apply (remove_child_keeps h _ _ (Hrc h eq_refl)); [exact Hin | congruence].
    + split; [unfold surface; rewrite Hnull; discriminate |].
      unfold deref. now rewrite Hheap.
  - auto.
Qed.

Lemma steps_inv (w w' : World) : inv w -> steps w w' -> inv w'.
Proof.
  intros Hinv Hsteps. induction Hsteps as [| w w1 w2 _ IH Hstep]; [exact Hinv |].
  exact (step_inv w1 w2 (IH Hinv) Hstep).
Qed.

(** X6: a canvas in the container that is not the manager's surface stays
    in the container, whatever the game does next: frames, popovers shown
    and removed; it keeps its name and never becomes the surface again.  In
    particular a popover that was replaced by another one is never detached. *)
Theorem replaced_popover_is_never_detached (w w' : World) (x : nat) :
  reachable w ->
  In x (container (dom w)) ->
  surface w <> Some x ->
  steps w w' ->
  In x (container (dom w'))
  /\ surface w' <> Some x
  /\ cv_id (deref w' x) = cv_id (deref w x).
Proof.
  intros Hr Hin Hns Hsteps. apply reachable_inv in Hr.
  induction Hsteps as [| w w1 w2 Hsteps IH Hstep]; [auto |].
  destruct (IH Hr Hin Hns) as (Hin1 & Hns1 & Hid1).
  destruct (step_keeps_other_canvases w1 w2 x (steps_inv w w1 Hr Hsteps) Hstep Hin1 Hns1)
    as (Hin2 & Hns2 & Hid2).
  split; [exact Hin2 |]. split; [exact Hns2 | congruence].
Qed.

(** The start screen, over which the dwarf popover was shown, is still
    attached after a frame and the removal of the dwarf popover. *)
Lemma replaced_popover_is_never_detached_witness :
  In 1%nat (container (dom dwarf_removed))
  /\ surface dwarf_removed <> Some 1%nat
  /\ cv_id (deref dwarf_removed 1) = "game-start-popover".
Proof.
  apply (replaced_popover_is_never_detached dwarf_shown dwarf_removed 1
           dwarf_shown_reachable).
  - cbn. tauto.
  - discriminate.
  - eapply steps_step; [eapply steps_step; [apply steps_refl |] |].
    + apply (step_frame dwarf_shown dwarf_after_frame). vm_compute. reflexivity.
    + apply (step_remove dwarf_after_frame dwarf_removed). vm_compute. reflexivity.
Defined.

(** ** The costume popovers *)

(** X7: in a running game each of the three costume popovers comes up on a
    fresh canvas named "costume-popover" that has the size of the engine's
    board canvas at that moment and nothing drawn on it yet; its record
    holds the costume's name, sprite and caption, the sprite is one of the
    images the engine has loaded, and the sprite is placed 51 left of the
    horizontal centre at height 60. *)
Theorem costume_popover_starts_like_the_board (c : COSTUME_TYPE) (w : World) :
  reachable w ->
  let board := deref w (eng_canvas (engine w)) in
  let n := List.length (heap (dom w)) in
  exists w' d,
    show (CostumeReveal c) w = Ok tt w'
    /\ surface w' = Some n
    /\ cv_id (deref w' n) = "costume-popover"
    /\ cv_width (deref w' n) = cv_width board
    /\ cv_height (deref w' n) = cv_height board
    /\ cv_drawn (deref w' n) = []
    /\ costumeData (pm w') = CostumeFull d
    /\ (costume d, spriteURL d, caption d) = costume_content c
    /\ In (spriteURL d) engine_assets
    /\ imageLocation d = ((num_of_Z (cv_width board) / 2 - 51)%float, 60%float)
    /\ originalImageYLocation d = 60%float.
Proof.
  intros Hr board n. apply reachable_inv in Hr.
  destruct Hr as ((_ & Hlt & _) & _ & Hwin & _).
  exists (set_costumeData (CostumeFull (costume_record c (cv_width board)))
            (attached (costume_canvas board) w)),
    (costume_record c (cv_width board)).
  split; [exact (presentCostume_explicit c w _ Hwin Hlt) |].
  split; [reflexivity |].
  assert (Hd : deref
                 (set_costumeData (CostumeFull (costume_record c (cv_width board)))
                    (attached (costume_canvas board) w)) n
               = costume_canvas board).
  { unfold deref, attached. cbn -[costume_canvas nth]. apply nth_last. }
  rewrite Hd.
  repeat (split; [reflexivity |]).
  split; [destruct c; reflexivity |].
  split; [apply costume_sprite_loaded |].
  split; reflexivity.
Qed.

(** The ghost popover over the start screen of the sample game: 505 by 606
    as its board. *)
Lemma costume_popover_starts_like_the_board_witness :
  exists w' d,
    show (CostumeReveal ghost) started = Ok tt w'
    /\ surface w' = Some 2%nat
    /\ cv_id (deref w' 2) = "costume-popover"
    /\ cv_width (deref w' 2) = 505%Z
    /\ cv_height (deref w' 2) = 606%Z
    /\ cv_drawn (deref w' 2) = []
    /\ costumeData (pm w') = CostumeFull d
    /\ (costume d, spriteURL d, caption d)
       = ("GHOST", "images/ghost-costume.png", "100% Believeable.")
    /\ In (spriteURL d) engine_assets
    /\ imageLocation d = (201.5%float, 60%float)
    /\ originalImageYLocation d = 60%float.
Proof.
  exact (costume_popover_starts_like_the_board ghost started started_reachable).
Defined.

(** X8: every image the popover manager ever draws, on any canvas of a
    running game, is one of the images the engine asked the loader for
    before the game started. *)
Theorem drawn_images_were_loaded
    (w : World) (c : Canvas) (url : string) (x y : float) :
  reachable w ->
  In c (heap (dom w)) ->
  In (DrawImage url x y) (cv_drawn c) ->
  In url engine_assets.
Proof.
  intros Hr Hc Hd. apply reachable_inv in Hr.
  destruct Hr as (_ & Hcv & _). rewrite Forall_forall in Hcv.
  destruct (Hcv c Hc) as (Himg & _). exact (Himg url x y Hd).
Qed.

(** The dwarf's sprite, drawn by the first frame of the dwarf popover. *)
Lemma drawn_images_were_loaded_witness : In "images/dwarf-red.png" engine_assets.
Proof.
  apply (drawn_images_were_loaded dwarf_after_frame (deref dwarf_after_frame 2)
           "images/dwarf-red.png" 201.5%float 60%float dwarf_after_frame_reachable).
  - vm_compute. tauto.
  - vm_compute. tauto.
Defined.

(** ** The engine's clock *)

(** X9: in a running game [lastTime] is never undefined: it holds a reading
    the clock gave earlier, so the time step of the next frame is the
    difference of two clock readings, divided by 1000. *)
Theorem lastTime_is_an_earlier_reading (w : World) :
  reachable w ->
  exists k,
    (k < clock_reads (host w))%nat
    /\ lastTime (engine w) = Some (clock (host w) k)
    /\ frame_dt w
       = ((clock (host w) (clock_reads (host w)) - clock (host w) k) / 1000)%float.
Proof.
  intros Hr. apply reachable_inv in Hr.
  destruct Hr as (_ & _ & _ & _ & _ & _ & _ & _ & _ & k & Hk & Hl).
  exists k. split; [exact Hk |]. split; [exact Hl |].
  unfold frame_dt, current_time. now rewrite Hl.
Qed.

(** After the first frame of the dwarf popover the clock was read four times
    (by [init], by two frames and by the costume's update) and [lastTime] is
    the third reading. *)
Lemma lastTime_is_an_earlier_reading_witness :
  exists k,
    (k < clock_reads (host dwarf_after_frame))%nat
    /\ lastTime (engine dwarf_after_frame) = Some (clock (host dwarf_after_frame) k)
    /\ frame_dt dwarf_after_frame
       = ((clock (host dwarf_after_frame) (clock_reads (host dwarf_after_frame))
           - clock (host dwarf_after_frame) k) / 1000)%float.
Proof.
  exact (lastTime_is_an_earlier_reading dwarf_after_frame dwarf_after_frame_reachable).
Defined.

(** ** Start-up *)


(** ** Rendering *)



(** ** Before the first popover *)

(** X12: while the manager has never shown a popover its [ctx] is
    undefined, and then both of its frame methods throw a TypeError: the
    display tests compare [ctx] with [null] only.  With them the engine's
    [update], [render] and a whole frame throw; since [update] throws,
    the frame renders nothing, does not set [lastTime] and does not ask for
    the next frame. *)
Theorem frame_throws_before_first_popover (w : World) (dt : float) :
  ctx (pm w) = Undefined ->
  let e := TypeError "Cannot read properties of undefined" in
  _isDisplayingCostumePopover w = Throw e
  /\ _isDisplayingEndOfGamePopover w = Throw e
  /\ PopoverManager_update dt w = Throw e
  /\ PopoverManager_render w = Throw e
  /\ update dt w = Throw e
  /\ render w = Throw e
  /\ main w = Throw e.
Proof.
  intros Hc e.
  assert (H1 : forall w0, ctx (pm w0) = Undefined ->
                 _isDisplayingCostumePopover w0 = Throw e).
  { intros w0 H0. unfold _isDisplayingCostumePopover, ctx_canvas, this_ctx.
    rewrite H0. cbn. now rewrite H0. }
  assert (H2 : forall w0, ctx (pm w0) = Undefined ->
                 _isDisplayingEndOfGamePopover w0 = Throw e).
  { intros w0 H0. unfold _isDisplayingEndOfGamePopover, ctx_canvas, this_ctx.
    rewrite H0. cbn. now rewrite H0. }
  assert (H3 : forall d w0, ctx (pm w0) = Undefined ->
                 PopoverManager_update d w0 = Throw e).
  { intros d w0 H0. unfold PopoverManager_update. unfold bind at 1.
    now rewrite (H1 w0 H0). }
  assert (H4 : forall w0, ctx (pm w0) = Undefined -> PopoverManager_render w0 = Throw e).
  { intros w0 H0. unfold PopoverManager_render. unfold bind at 1.
    now rewrite (H1 w0 H0). }
  assert (H5 : forall d w0, ctx (pm w0) = Undefined -> update d w0 = Throw e).
  { intros d w0 H0. rewrite update_eq. now rewrite H3 by exact H0. }
  split; [exact (H1 w Hc) |]. split; [exact (H2 w Hc) |].
  split; [exact (H3 dt w Hc) |]. split; [exact (H4 w Hc) |].
  split; [exact (H5 dt w Hc) |].
  split; [rewrite render_eq; now apply H4 |].
  rewrite main_eq. now rewrite H5 by exact Hc.
Qed.

(** The page after the engine's set-up: a frame run then, before [init] has
    shown the start screen, throws. *)
Lemma frame_throws_before_first_popover_witness :
  let e := TypeError "Cannot read properties of undefined" in
  _isDisplayingCostumePopover engine_ready = Throw e
  /\ _isDisplayingEndOfGamePopover engine_ready = Throw e
  /\ PopoverManager_update 0.016%float engine_ready = Throw e
  /\ PopoverManager_render engine_ready = Throw e
  /\ update 0.016%float engine_ready = Throw e
  /\ render engine_ready = Throw e
  /\ main engine_ready = Throw e.
Proof.
  exact (frame_throws_before_first_popover engine_ready 0.016%float eq_refl).
Defined.
